(** * The product extraction engine of [billa_scraper.py]

    A shallow embedding of [BillaScraper.clean_product_name],
    [BillaScraper.is_non_product],
    [BillaScraper.extract_prices_from_container] and
    [BillaScraper.extract_products], together with the parts of the Python
    runtime they call: [str] values, the [re] module on the patterns of the
    source, the tree queries of BeautifulSoup, [float], [int], [print] and
    [datetime.now]. *)

From Stdlib Require Import String Ascii List NArith ZArith Bool Lia.
Import ListNotations.

Set Implicit Arguments.

(** ** Python [str]: a sequence of Unicode code points *)

Definition char := N.
Bind Scope N_scope with char.
Definition str := list char.

(** Literals are written as UTF-8 text and decoded to code points. *)
Fixpoint utf8_dec (s : string) (acc : N) (need : nat) : str :=
  match s with
  | EmptyString => []
  | String a s' =>
      let b := N_of_ascii a in
      match need with
      | O =>
          if (b <? 128)%N then b :: utf8_dec s' 0%N 0
          else if (b <? 224)%N then utf8_dec s' (b - 192)%N 1
          else if (b <? 240)%N then utf8_dec s' (b - 224)%N 2
          else utf8_dec s' (b - 240)%N 3
      | S n =>
          let acc' := (acc * 64 + (b - 128))%N in
          match n with
          | O => acc' :: utf8_dec s' 0%N 0
          | S _ => utf8_dec s' acc' n
          end
      end
  end.

Definition utf8 (s : string) : str := utf8_dec s 0%N 0.

Definition char_eqb (a b : char) : bool := N.eqb a b.

Fixpoint str_eqb (a b : str) : bool :=
  match a, b with
  | [], [] => true
  | x :: a', y :: b' => char_eqb x y && str_eqb a' b'
  | _, _ => false
  end.

(** ** The Unicode tables the runtime consults

    The scraper never names a code point range itself: [\d], [\s],
    [str.strip], [str.lower], [int] and [re.IGNORECASE] all go through the
    interpreter's Unicode database.  The database is an interface here, so
    that what is proved of the scraper holds for every table, the
    interpreter's own included.  Three facts about decimal digits are part of
    the interface: a digit is not white space and is not a sign. *)

Class Unicode := {
  (** value of a decimal digit (category Nd): [\d] and [int] *)
  digit_value : char -> option N;
  (** [str.isspace] on one character: [\s] and [str.strip] *)
  isspace : char -> bool;
  (** simple lower-case mapping of one character, as [re] uses it *)
  tolower : char -> char;
  (** whether [re] treats a pattern character as having case *)
  iscased : char -> bool;
  (** further characters [re.IGNORECASE] identifies with a lower-case one *)
  casefix : char -> list char;
  (** [str.lower] *)
  lower : str -> str;
  digit_not_space : forall c v, digit_value c = Some v -> isspace c = false;
  minus_not_digit : digit_value 45 = None;
  plus_not_digit : digit_value 43 = None
}.

Section Strings.
Context {U : Unicode}.

Definition isdigit (c : char) : bool :=
  match digit_value c with Some _ => true | None => false end.

(** [str.lstrip], [str.rstrip] and [str.strip] without arguments. *)
Fixpoint lstrip (s : str) : str :=
  match s with
  | c :: s' => if isspace c then lstrip s' else s
  | [] => []
  end.

Fixpoint rstrip (s : str) : str :=
  match s with
  | [] => []
  | c :: s' =>
      match rstrip s' with
      | [] => if isspace c then [] else [c]
      | t => c :: t
      end
  end.

Definition strip (s : str) : str := rstrip (lstrip s).

End Strings.

(** ** The [re] module, on the pattern syntax the source uses

    Literals, [.], [\d], [\s], concatenation, [|], greedy [*], [+] and [?],
    capture groups, and [^] at the start of a pattern.  The matcher is a
    backtracking one and tries the alternatives in the interpreter's order:
    the left branch of [|] first, one more iteration of [*] before leaving
    the loop. *)

Inductive regex :=
| Eps
| Chr (c : char)
| Dot
| Digit
| Space
| Cat (r1 r2 : regex)
| Alt (r1 r2 : regex)
| Star (r : regex)
| Group (i : nat) (r : regex).

Definition Plus (r : regex) : regex := Cat r (Star r).
Definition Opt (r : regex) : regex := Alt r Eps.

(** A literal run of characters. *)
Fixpoint Lit (s : str) : regex :=
  match s with
  | [] => Eps
  | [c] => Chr c
  | c :: s' => Cat (Chr c) (Lit s')
  end.

(** A compiled pattern: whether it starts with [^], and the rest. *)
Record pattern := { anchored : bool; body : regex }.

Definition groups := list (nat * str).

Fixpoint group (i : nat) (g : groups) : option str :=
  match g with
  | [] => None
  | (j, s) :: g' => if Nat.eqb i j then Some s else group i g'
  end.

(** A match object: where the match starts, what it covers, what follows it
    in the subject, and the captured groups. *)
Record rmatch := {
  m_start : nat;
  m_text : str;
  m_rest : str;
  m_groups : groups
}.

Section Re.
Context {U : Unicode}.

(** Whether pattern character [p] accepts subject character [c]; [ic] is
    the [re.IGNORECASE] flag. *)
Definition chr_match (ic : bool) (p c : char) : bool :=
  if ic && iscased p then
    let lo := tolower p in
    char_eqb (tolower c) lo || existsb (char_eqb (tolower c)) (casefix lo)
  else char_eqb c p.

Definition newline : char := 10%N.

(** [run ic r s g k]: match [r] at the head of [s], then hand what is left
    of [s] and the groups to [k]; [None] when every alternative fails. *)
Fixpoint run (ic : bool) (r : regex) (s : str) (g : groups)
    (k : str -> groups -> option (str * groups)) {struct r}
    : option (str * groups) :=
  match r with
  | Eps => k s g
  | Chr p =>
      match s with
      | c :: s' => if chr_match ic p c then k s' g else None
      | [] => None
      end
  | Dot =>
      match s with
      | c :: s' => if char_eqb c newline then None else k s' g
      | [] => None
      end
  | Digit =>
      match s with
      | c :: s' => if isdigit c then k s' g else None
      | [] => None
      end
  | Space =>
      match s with
      | c :: s' => if isspace c then k s' g else None
      | [] => None
      end
  | Cat r1 r2 => run ic r1 s g (fun s' g' => run ic r2 s' g' k)
  | Alt r1 r2 =>
      match run ic r1 s g k with
      | Some res => Some res
      | None => run ic r2 s g k
      end
  | Star r' =>
      (fix loop (n : nat) (s : str) (g : groups) {struct n}
         : option (str * groups) :=
         match n with
         | O => k s g
         | S n' =>
             match
               run ic r' s g
                 (fun s' g' =>
                    if Nat.ltb (length s') (length s)
                    then loop n' s' g' else None)
             with
             | Some res => Some res
             | None => k s g
             end
         end) (length s) s g
  | Group i r' =>
      run ic r' s g
        (fun s' g' => k s' ((i, firstn (length s - length s') s) :: g'))
  end.

(** The match of [r] that starts at the head of [s], if there is one. *)
Definition match_at (ic : bool) (r : regex) (pos : nat) (s : str)
    : option rmatch :=
  match run ic r s [] (fun s' g => Some (s', g)) with
  | Some (s', g) =>
      Some {| m_start := pos;
              m_text := firstn (length s - length s') s;
              m_rest := s';
              m_groups := g |}
  | None => None
  end.

(** The leftmost match at or after the head of [s]. *)
Fixpoint scan (ic : bool) (r : regex) (pos : nat) (s : str)
    : option rmatch :=
  match match_at ic r pos s with
  | Some m => Some m
  | None =>
      match s with
      | [] => None
      | _ :: s' => scan ic r (S pos) s'
      end
  end.

(** [re.search(p, s, flags)] *)
Definition re_search (ic : bool) (p : pattern) (s : str) : option rmatch :=
  if anchored p then match_at ic (body p) 0 s else scan ic (body p) 0 s.

(** [re.sub(r, repl, s, flags)] for a pattern without [^] and a
    replacement without back-references: every leftmost match from left to
    right is replaced; [skip] counts the characters of the current match
    still to be dropped.  An empty match yields the replacement and the
    scan moves on by one character. *)
Fixpoint sub_go (ic : bool) (r : regex) (repl : str) (s : str) (skip : nat)
    : str :=
  match skip with
  | S n =>
      match s with
      | [] => []
      | _ :: s' => sub_go ic r repl s' n
      end
  | O =>
      match match_at ic r 0 s with
      | Some m =>
          match s with
          | [] => repl
          | c :: s' =>
              match length (m_text m) with
              | O => repl ++ c :: sub_go ic r repl s' 0
              | S n => repl ++ sub_go ic r repl s' n
              end
          end
      | None =>
          match s with
          | [] => []
          | c :: s' => c :: sub_go ic r repl s' 0
          end
      end
  end.

Definition re_sub (ic : bool) (r : regex) (repl : str) (s : str) : str :=
  sub_go ic r repl s 0.
End Re.

(** Pattern notation helpers. *)
Definition chr (s : string) : char := hd 0%N (utf8 s).

Fixpoint cats (l : list regex) : regex :=
  match l with
  | [] => Eps
  | [r] => r
  | r :: l' => Cat r (cats l')
  end.

Definition unanchored (r : regex) : pattern := {| anchored := false; body := r |}.
Definition at_start (r : regex) : pattern := {| anchored := true; body := r |}.

(** ** Exceptions *)

(** [ValueError arg] is raised by [float] and [int] for an argument that is
    no number; [Exceeds_limit digits] is the [ValueError] of [int] for a
    number of more digits than it converts. *)
Inductive exn :=
| ValueError (arg : str)
| Exceeds_limit (digits : nat)
| TypeError.

Inductive result (A : Type) :=
| Ok (a : A)
| Raise (e : exn).
Arguments Ok {A} a.
Arguments Raise {A} e.

Definition bind {A B : Type} (m : result A) (f : A -> result B) : result B :=
  match m with
  | Ok a => f a
  | Raise e => Raise e
  end.

Declare Scope result_scope.
Delimit Scope result_scope with result.
Notation "x <- m ;; k" := (bind m (fun x => k))
  (at level 61, m at next level, right associativity) : result_scope.
Open Scope result_scope.

(** ** [float] and [int] on strings *)

(** [float(s)]: the conversion is the interpreter's; [None] stands for its
    [ValueError]. *)
Class PyFloat := {
  pyfloat : Type;
  float_of_str : str -> option pyfloat
}.

Definition float `{PyFloat} (s : str) : result pyfloat :=
  match float_of_str s with
  | Some v => Ok v
  | None => Raise (ValueError s)
  end.

Section Int.
Context {U : Unicode}.

(** The rest of a [digitpart ::= digit (["_"] digit)*] after its first
    digit: the number read so far, how many digits, and what follows. *)
Fixpoint digitpart_more (s : str) (m : N) (n : nat) : N * nat * str :=
  match s with
  | c :: s' =>
      match digit_value c with
      | Some v => digitpart_more s' (10 * m + v)%N (S n)
      | None =>
          if char_eqb c (chr "_") then
            match s' with
            | d :: s'' =>
                match digit_value d with
                | Some v => digitpart_more s'' (10 * m + v)%N (S n)
                | None => (m, n, s)
                end
            | [] => (m, n, s)
            end
          else (m, n, s)
      end
  | [] => (m, n, s)
  end.

Definition digitpart (s : str) (m : N) (n : nat) : option (N * nat * str) :=
  match s with
  | c :: s' =>
      match digit_value c with
      | Some v => Some (digitpart_more s' (10 * m + v)%N (S n))
      | None => None
      end
  | [] => None
  end.

(** An optional sign: whether it is a minus, and what follows. *)
Definition sign (s : str) : bool * str :=
  match s with
  | c :: s' =>
      if char_eqb c (chr "-") then (true, s')
      else if char_eqb c (chr "+") then (false, s')
      else (false, s)
  | [] => (false, s)
  end.

(** [sys.int_info.default_max_str_digits]: the most digits [int] converts
    in a base that is no power of two.  The program never changes it. *)
Definition int_max_str_digits : N := 4300.

(** [int(s)] in base 10.  A literal that is not a run of digits, with
    single underscores between them at most, is invalid; a valid one of
    more digits than the limit is refused.  (Interpreters before 3.12 count
    the digits before they look at what follows them; the two orders differ
    on no run of digits.) *)
Definition int_of_str (s : str) : result Z :=
  let (neg, s1) := sign (strip s) in
  match digitpart s1 0%N 0 with
  | Some (m, n, []) =>
      if (int_max_str_digits <? N.of_nat n)%N
      then Raise (Exceeds_limit n)
      else Ok (if neg then (- Z.of_N m)%Z else Z.of_N m)
  | _ => Raise (ValueError s)
  end.

(** [int(x)] where [x] is what [Match.group] returned: [None] is not a
    number. *)
Definition int (x : option str) : result Z :=
  match x with
  | None => Raise TypeError
  | Some s => int_of_str s
  end.
End Int.

(** ** The parsed document, as BeautifulSoup presents it

    A tag keeps its name, the list of its classes, its [style] attribute and
    its children; the scraper reads no other attribute.  A [Comment] is a
    string that [get_text] leaves out. *)

#[local] Unset Elimination Schemes.
Inductive node :=
| NavigableString (s : str)
| Comment (s : str)
| Tag (name : str) (classes : list str) (style : option str)
      (children : list node).
#[local] Set Elimination Schemes.

(** Everything below a node, in document order. *)
Fixpoint descendants (n : node) : list node :=
  match n with
  | Tag _ _ _ children => flat_map (fun c => c :: descendants c) children
  | _ => []
  end.

Definition tag_named (name : str) (n : node) : bool :=
  match n with
  | Tag t _ _ _ => str_eqb t name
  | _ => false
  end.

Definition has_class (cls : str) (n : node) : bool :=
  match n with
  | Tag _ classes _ _ => existsb (str_eqb cls) classes
  | _ => false
  end.

(** The text strings below a node, in document order. *)
Fixpoint strings (n : node) : list str :=
  match n with
  | NavigableString s => [s]
  | Comment _ => []
  | Tag _ _ _ children => flat_map strings children
  end.

Definition nonempty (s : str) : bool :=
  match s with [] => false | _ :: _ => true end.

Section Soup.
Context {U : Unicode}.

(** [tag.find_all(name, class_=cls)] *)
Definition find_all (n : node) (name cls : str) : list node :=
  filter (fun d => tag_named name d && has_class cls d) (descendants n).

(** [tag.find(name, class_=cls)] *)
Definition find (n : node) (name cls : str) : option node :=
  hd_error (find_all n name cls).

Definition style_matches (p : pattern) (n : node) : bool :=
  match n with
  | Tag _ _ (Some v) _ =>
      match re_search false p v with Some _ => true | None => false end
  | _ => false
  end.

(** [tag.find(name, style=re.compile(p))] *)
Definition find_style (n : node) (name : str) (p : pattern) : option node :=
  hd_error
    (filter (fun d => tag_named name d && style_matches p d) (descendants n)).

(** [tag.get_text(strip=True)] *)
Definition get_text (n : node) : str :=
  concat (filter nonempty (map strip (strings n))).
End Soup.

(** ** What the engine touches outside its arguments

    [datetime.now()] reads a clock and [print] writes a line; [clock w i] is
    what the [i]-th reading of the clock returns, in ISO format. *)

Inductive line :=
| Error_processing_product (e : exn).

Record world := {
  clock : nat -> str;
  ticks : nat;
  stdout : list line
}.

(** [datetime.now().isoformat()] *)
Definition now (w : world) : str * world :=
  (clock w (ticks w),
   {| clock := clock w; ticks := S (ticks w); stdout := stdout w |}).

(** [print(x)] *)
Definition print (x : line) (w : world) : world :=
  {| clock := clock w; ticks := ticks w; stdout := stdout w ++ [x] |}.

(** ** The scraper *)

Module Prices.
(** The dictionary [extract_prices_from_container] fills in. *)
Record t `{PyFloat} := {
  old_price : option pyfloat;
  new_price : option pyfloat;
  discount : option Z
}.
End Prices.

Module Product.
(** One entry of the list [extract_products] returns. *)
Record t `{PyFloat} := {
  name : str;
  old_price : option pyfloat;
  new_price : option pyfloat;
  currency : str;
  discount_percent : option Z;
  extracted_at : str
}.
End Product.

Section Scraper.
Context {U : Unicode} {F : PyFloat}.

(** [\d+\.\d+\s*(лв\.|€)] *)
Definition price_re : regex :=
  cats [Plus Digit; Chr (chr "."); Plus Digit; Star Space;
        Group 1 (Alt (Lit (utf8 "лв.")) (Lit (utf8 "€")))].

(** [цена\s*-?\s*] *)
Definition label_re : regex :=
  cats [Lit (utf8 "цена"); Star Space; Opt (Chr (chr "-")); Star Space].

(** [\s+] *)
Definition spaces_re : regex := Plus Space.

(** The value of [cleaned] when [clean_product_name] returns. *)
Definition cleaned (text : str) : str :=
  let cleaned := re_sub false price_re [] text in
  let cleaned := re_sub true label_re [] cleaned in
  strip (re_sub false spaces_re (utf8 " ") cleaned).

Definition clean_product_name (text : str) : option str :=
  let cleaned := cleaned text in
  if Nat.ltb 3 (length cleaned) then Some cleaned else None.

Definition non_product_patterns : list pattern :=
  [ at_start (cats [Lit (utf8 "празнувай"); Star Dot; Lit (utf8 "billa")]);
    at_start (cats [Plus Digit; Star Space; Lit (utf8 "години")]);
    at_start (Lit (utf8 "валидност:"));
    at_start (cats [Lit (utf8 "над"); Star Space; Plus Digit; Star Space;
                    Lit (utf8 "продукта")]);
    at_start (cats [Chr (chr "*"); Star Dot; Lit (utf8 "виж повече")]);
    at_start (cats [Lit (utf8 "**"); Star Dot; Lit (utf8 "номерацията")]);
    at_start (Lit (utf8 "мултипак оферта"));
    unanchored (Lit (utf8 "www.billa.bg"));
    at_start (Lit (utf8 "предстояща брошура"));
    at_start (Lit (utf8 "седмична брошура"));
    at_start (Lit (utf8 "обратно на училище")) ].

(** The loop of [is_non_product] over the patterns still to try. *)
Fixpoint any_pattern (patterns : list pattern) (text_lower : str) : bool :=
  match patterns with
  | [] => false
  | pattern :: rest =>
      match re_search true pattern text_lower with
      | Some _ => true
      | None => any_pattern rest text_lower
      end
  end.

Definition is_non_product (text : str) : bool :=
  let text_lower := lower text in
  any_pattern non_product_patterns text_lower.

(** [-\s*(\d+)%] *)
Definition discount_re : pattern :=
  unanchored (cats [Chr (chr "-"); Star Space; Group 1 (Plus Digit);
                    Chr (chr "%")]).

(** [width:21%] and [width:15%] *)
Definition width21 : pattern := unanchored (Lit (utf8 "width:21%")).
Definition width15 : pattern := unanchored (Lit (utf8 "width:15%")).

Definition div : str := utf8 "div".
Definition span : str := utf8 "span".

Definition set_discount (p : Prices.t) (d : Z) : Prices.t :=
  {| Prices.old_price := Prices.old_price p;
     Prices.new_price := Prices.new_price p;
     Prices.discount := Some d |}.

Definition set_old_price (p : Prices.t) (v : pyfloat) : Prices.t :=
  {| Prices.old_price := Some v;
     Prices.new_price := Prices.new_price p;
     Prices.discount := Prices.discount p |}.

Definition set_new_price (p : Prices.t) (v : pyfloat) : Prices.t :=
  {| Prices.old_price := Prices.old_price p;
     Prices.new_price := Some v;
     Prices.discount := Prices.discount p |}.

(** Lines 110-116: the discount percentage. *)
Definition discount_section (container : node) (prices : Prices.t)
    : result Prices.t :=
  match find container div (utf8 "discount") with
  | Some discount_div =>
      let discount_text := get_text discount_div in
      match re_search false discount_re discount_text with
      | Some discount_match =>
          d <- int (group 1 (m_groups discount_match)) ;;
          Ok (set_discount prices d)
      | None => Ok prices
      end
  | None => Ok prices
  end.

(** Lines 118-128: the section of width 21%. *)
Definition old_price_section (container : node) (prices : Prices.t)
    : result Prices.t :=
  match find_style container div width21 with
  | Some old_price_div =>
      match find_all old_price_div span (utf8 "price") with
      | first :: others =>
          v <- float (get_text first) ;;
          let prices := set_old_price prices v in
          match others with
          | second :: _ =>
              v <- float (get_text second) ;;
              Ok (set_new_price prices v)
          | [] => Ok prices
          end
      | [] => Ok prices
      end
  | None => Ok prices
  end.

(** Lines 130-137: the section of width 15%. *)
Definition new_price_section (container : node) (prices : Prices.t)
    : result Prices.t :=
  match Prices.new_price prices with
  | None =>
      match find_style container div width15 with
      | Some new_price_div =>
          match find_all new_price_div span (utf8 "price") with
          | first :: _ =>
              v <- float (get_text first) ;;
              Ok (set_new_price prices v)
          | [] => Ok prices
          end
      | None => Ok prices
      end
  | Some _ => Ok prices
  end.

Definition extract_prices_from_container (container : node)
    : result Prices.t :=
  let prices :=
    {| Prices.old_price := None; Prices.new_price := None;
       Prices.discount := None |} in
  prices <- discount_section container prices ;;
  prices <- old_price_section container prices ;;
  prices <- new_price_section container prices ;;
  Ok prices.

Definition is_some {A : Type} (o : option A) : bool :=
  match o with Some _ => true | None => false end.

(** What the body of the [try] decides for one container before anything
    is appended: nothing (a [continue], or no price at all), or the name
    and the prices of a product; an exception leaves the body. *)
Definition assemble (container : node)
    : result (option (str * Prices.t)) :=
  match find container div (utf8 "actualProduct") with
  | None => Ok None
  | Some product_div =>
      match clean_product_name (get_text product_div) with
      | None => Ok None
      | Some product_name =>
          if negb (nonempty product_name)
             || Nat.ltb (length (strip product_name)) 3
          then Ok None
          else if is_non_product product_name then Ok None
          else
            prices <- extract_prices_from_container container ;;
            if is_some (Prices.old_price prices)
               || is_some (Prices.new_price prices)
            then Ok (Some (product_name, prices))
            else Ok None
      end
  end.

(** The dictionary appended for a product, stamped with [extracted_at]. *)
Definition record (product_name : str) (prices : Prices.t) (at_ : str)
    : Product.t :=
  {| Product.name := product_name;
     Product.old_price := Prices.old_price prices;
     Product.new_price := Prices.new_price prices;
     Product.currency := utf8 "лв.";
     Product.discount_percent := Prices.discount prices;
     Product.extracted_at := at_ |}.

(** The [for] loop of [extract_products]; [products] is the list built so
    far. *)
Fixpoint scan_containers (product_containers : list node)
    (products : list Product.t) (w : world) : list Product.t * world :=
  match product_containers with
  | [] => (products, w)
  | container :: rest =>
      match assemble container with
      | Ok (Some (product_name, prices)) =>
          let (at_, w') := now w in
          scan_containers rest
            (products ++ [record product_name prices at_]) w'
      | Ok None => scan_containers rest products w
      | Raise e =>
          scan_containers rest products
            (print (Error_processing_product e) w)
      end
  end.

(** [extract_products], from the tree that
    [BeautifulSoup(html_content, 'html.parser')] builds. *)
Definition extract_products (soup : node) (w : world)
    : list Product.t * world :=
  let products := [] in
  let product_containers := find_all soup div (utf8 "product") in
  scan_containers product_containers products w.
End Scraper.

(** ** One instance of the runtime tables

    The examples are evaluated with the tables below: the letters of the
    Basic Latin and Cyrillic blocks (every other character has no case), the
    decimal digits of three scripts, the white space of [str.isspace], and
    [float] reading a decimal numeral to the number it denotes, before any
    rounding. *)

(** [lo <= c <= hi].  The character is the second operand of every
    comparison: the comparisons of [N] recurse on it, so that a function of a
    character not yet known stays small when it is normalized. *)
Definition in_range (lo hi c : N) : bool := (lo <=? c)%N && negb (hi <? c)%N.

Definition sample_isspace (c : char) : bool :=
  in_range 9 13 c || in_range 28 32 c || char_eqb 133 c || char_eqb 160 c
  || char_eqb 5760 c || in_range 8192 8202 c || in_range 8232 8233 c
  || char_eqb 8239 c || char_eqb 8287 c || char_eqb 12288 c.

(** The place of [c] in [codes], counted from [i]. *)
Fixpoint index_of (c : char) (codes : list char) (i : N) : option N :=
  match codes with
  | [] => None
  | k :: codes' =>
      if char_eqb k c then Some i else index_of c codes' (N.succ i)
  end.

(** The digits 0 to 9 of three scripts: ASCII, Arabic-Indic, full width. *)
Definition ascii_digits : list char :=
  [48; 49; 50; 51; 52; 53; 54; 55; 56; 57]%N.
Definition arabic_indic_digits : list char :=
  [1632; 1633; 1634; 1635; 1636; 1637; 1638; 1639; 1640; 1641]%N.
Definition fullwidth_digits : list char :=
  [65296; 65297; 65298; 65299; 65300; 65301; 65302; 65303; 65304; 65305]%N.

Definition sample_digit_value (c : char) : option N :=
  match index_of c ascii_digits 0 with
  | Some v => Some v
  | None =>
      match index_of c arabic_indic_digits 0 with
      | Some v => Some v
      | None => index_of c fullwidth_digits 0
      end
  end.

Definition sample_tolower (c : char) : char :=
  if in_range 65 90 c then (c + 32)%N
  else if in_range 1040 1071 c then (c + 32)%N
  else if in_range 1024 1039 c then (c + 80)%N
  else c.

Definition sample_iscased (c : char) : bool :=
  in_range 65 90 c || in_range 97 122 c || in_range 1024 1119 c.

(** The characters [re.IGNORECASE] identifies beyond the lower-case mapping,
    for the letters of the two blocks. *)
Definition sample_casefix (c : char) : list char :=
  if char_eqb c 105 then [305%N]
  else if char_eqb c 115 then [383%N]
  else if char_eqb c 1074 then [7296%N]
  else if char_eqb c 1076 then [7297%N]
  else if char_eqb c 1086 then [7298%N]
  else if char_eqb c 1089 then [7299%N]
  else if char_eqb c 1090 then [7300%N; 7301%N]
  else if char_eqb c 1098 then [7302%N]
  else [].

Definition sample_unicode : Unicode.
Proof.
  refine
    {| digit_value := sample_digit_value;
       isspace := sample_isspace;
       tolower := sample_tolower;
       iscased := sample_iscased;
       casefix := sample_casefix;
       lower := map sample_tolower |}; [ | reflexivity | reflexivity ].
  intros c v H.
  cbv [sample_digit_value index_of ascii_digits arabic_indic_digits
       fullwidth_digits char_eqb] in H.
  repeat match type of H with
         | context [ (?k =? c)%N ] =>
             destruct (N.eqb_spec k c) as [<- | _]; [reflexivity | ]
         end.
  discriminate.
Defined.

Inductive decimal :=
| Finite (negative : bool) (digits : N) (exp10 : Z)
| Infinity (negative : bool)
| NaN.

Section Decimal.
Context {U : Unicode}.

Definition ascii_lower (c : char) : char :=
  if in_range 65 90 c then (c + 32)%N else c.

(** [number ::= [digitpart] "." digitpart | digitpart ["."]]: the digits
    read as one number, how many of them follow the point, and the rest. *)
Definition number (s : str) : option (N * nat * str) :=
  match digitpart s 0%N 0 with
  | Some (m, _, rest) =>
      match rest with
      | c :: rest' =>
          if char_eqb c (chr ".") then
            match digitpart rest' m 0 with
            | Some r => Some r
            | None => Some (m, 0, rest')
            end
          else Some (m, 0, rest)
      | [] => Some (m, 0, rest)
      end
  | None =>
      match s with
      | c :: s' => if char_eqb c (chr ".") then digitpart s' 0%N 0 else None
      | [] => None
      end
  end.

(** [floatvalue ::= [sign] (number [exponent] | "inf" | "infinity" | "nan")]
    between optional white space. *)
Definition decimal_of_str (s : str) : option decimal :=
  let (neg, s1) := sign (strip s) in
  let word := map ascii_lower s1 in
  if str_eqb word (utf8 "inf") || str_eqb word (utf8 "infinity")
  then Some (Infinity neg)
  else if str_eqb word (utf8 "nan") then Some NaN
  else
    match number s1 with
    | Some (m, fd, []) => Some (Finite neg m (- Z.of_nat fd))
    | Some (m, fd, c :: rest) =>
        if char_eqb (ascii_lower c) (chr "e") then
          let (eneg, s2) := sign rest in
          match digitpart s2 0%N 0 with
          | Some (e, _, []) =>
              let e := if eneg then (- Z.of_N e)%Z else Z.of_N e in
              Some (Finite neg m (e - Z.of_nat fd))
          | _ => None
          end
        else None
    | None => None
    end.

Definition decimal_float : PyFloat :=
  {| pyfloat := decimal; float_of_str := decimal_of_str |}.
End Decimal.

(** ** What a pattern denotes

    [matches ic r w g g']: the word [w] belongs to the language of [r], and
    reading it turns the captured groups [g] into [g']. *)

Section Language.
Context {U : Unicode}.

Inductive matches (ic : bool) : regex -> str -> groups -> groups -> Prop :=
| M_Eps g : matches ic Eps [] g g
| M_Chr p c g : chr_match ic p c = true -> matches ic (Chr p) [c] g g
| M_Dot c g : char_eqb c newline = false -> matches ic Dot [c] g g
| M_Digit c g : isdigit c = true -> matches ic Digit [c] g g
| M_Space c g : isspace c = true -> matches ic Space [c] g g
| M_Cat r1 r2 w1 w2 g g1 g2 :
    matches ic r1 w1 g g1 -> matches ic r2 w2 g1 g2 ->
    matches ic (Cat r1 r2) (w1 ++ w2) g g2
| M_Alt_l r1 r2 w g g' :
    matches ic r1 w g g' -> matches ic (Alt r1 r2) w g g'
| M_Alt_r r1 r2 w g g' :
    matches ic r2 w g g' -> matches ic (Alt r1 r2) w g g'
| M_Star_nil r g : matches ic (Star r) [] g g
| M_Star_cons r w1 w2 g g1 g2 :
    matches ic r w1 g g1 -> matches ic (Star r) w2 g1 g2 ->
    matches ic (Star r) (w1 ++ w2) g g2
| M_Group i r w g g' :
    matches ic r w g g' -> matches ic (Group i r) w g ((i, w) :: g').

(** Some part of [s] belongs to the language of [r]. *)
Definition occurs (ic : bool) (r : regex) (s : str) : Prop :=
  exists before w after g,
    s = before ++ w ++ after /\ matches ic r w [] g.

(** Runs of decimal digits, and runs of white space. *)
Definition digits (w : str) : Prop := Forall (fun c => isdigit c = true) w.
Definition blanks (w : str) : Prop := Forall (fun c => isspace c = true) w.

Definition space : char := chr " ".

(** Every white-space character of [s] is a space, and no two follow each
    other. *)
Fixpoint single_spaced (s : str) : bool :=
  match s with
  | [] => true
  | c :: s' =>
      (if isspace c then
         char_eqb c space
         && match s' with d :: _ => negb (isspace d) | [] => true end
       else true)
      && single_spaced s'
  end.

(** [s] neither starts nor ends with white space. *)
Definition trimmed (s : str) : bool :=
  match s with
  | [] => true
  | c :: _ => negb (isspace c) && negb (isspace (last s c))
  end.
End Language.

Section Reading.
Context {U : Unicode} {F : PyFloat}.

(** A name the normalizer has nothing to do on: no price with its
    currency, no price label, single-spaced and trimmed. *)
Definition clean_name (s : str) : Prop :=
  ~ occurs false price_re s /\ ~ occurs true label_re s
  /\ single_spaced s = true /\ trimmed s = true.

(** The lines a scan of the containers prints. *)
Definition diagnostics (product_containers : list node) : list line :=
  flat_map
    (fun container =>
       match assemble container with
       | Raise e => [Error_processing_product e]
       | Ok _ => []
       end)
    product_containers.

(** A record without its time stamp. *)
Definition untimed (r : Product.t) : Product.t :=
  {| Product.name := Product.name r;
     Product.old_price := Product.old_price r;
     Product.new_price := Product.new_price r;
     Product.currency := Product.currency r;
     Product.discount_percent := Product.discount_percent r;
     Product.extracted_at := [] |}.

Definition has_price (r : Product.t) : Prop :=
  Product.old_price r <> None \/ Product.new_price r <> None.
End Reading.

(** ** Sample documents *)

Definition text (s : string) : node := NavigableString (utf8 s).

Definition price_span (s : string) : node :=
  Tag span [utf8 "price"] None [text s].

Definition column (style : string) (prices : list string) : node :=
  Tag div [] (Some (utf8 style)) (map price_span prices).

(** A product container: the name, perhaps a discount badge, the wide and the
    narrow price column. *)
Definition product_block (name : string) (badge : option string)
    (wide narrow : list string) : node :=
  Tag div [utf8 "product"] None
    (Tag div [utf8 "actualProduct"] None [text name]
     :: match badge with
        | Some d => [Tag div [utf8 "discount"] None [text d]]
        | None => []
        end
     ++ [column "width:21%;float:left" wide;
         column "width:15%;float:left" narrow]).

Definition page (blocks : list node) : node :=
  Tag (utf8 "[document]") [] None [Tag (utf8 "body") [] None blocks].

Definition world_at (stamp : string) : world :=
  {| clock := fun _ => utf8 stamp; ticks := 0; stdout := [] |}.

Open Scope string_scope.

(** One text for each pattern of [non_product_patterns], in its order. *)
Definition category_examples : list str :=
  map utf8
    [ "Празнувай с нас в BILLA";
      "25 години BILLA";
      "Валидност: 09.01 - 15.01.2025";
      "Над 1000 продукта на супер цени";
      "* Виж повече в магазина";
      "** Повече за номерацията на страниците";
      "Мултипак оферта при покупка на 2 броя";
      "Повече на WWW.BILLA.BG";
      "Предстояща брошура";
      "СЕДМИЧНА БРОШУРА";
      "Обратно на училище" ].

Definition milk : str := utf8 "Прясно мляко 3% 1л".

Definition monday : world := world_at "2025-01-06T09:00:00".
Definition tuesday : world := world_at "2025-01-07T09:00:00".

Definition coffee : node :=
  product_block "Кафе Лаваца 250г" None ["12.99"; "9.99"] ["5.49"].

Definition cheese : node :=
  product_block "Кашкавал Витоша 400г" None ["7.50"] ["6.20"].

Definition ham : node :=
  product_block "Шунка Пиле 300г" (Some "-20%") ["8.00"; "6.40"] [].

Definition bread : node :=
  product_block "Хляб Добруджа 650г" (Some "ново") [] ["1.59"].

Definition butter : node :=
  product_block "Масло Верея 125г" None ["N/A"] ["3.49"].

Definition lemonade : node :=
  product_block "Лимонада Дерби 2л" (Some "-150%") ["2.00"] ["1.20"].

Definition five_blocks : node := page [ham; cheese; butter; bread; coffee].


Close Scope string_scope.

(** A discount badge of [n] nines between the minus and the percent sign. *)
Definition nines_badge (n : nat) : node :=
  Tag div [utf8 "discount"] None
    [NavigableString (chr "-" :: repeat (chr "9") n ++ [chr "%"])].

(** A product container with the badge put after its name. *)
Definition with_badge (badge block : node) : node :=
  match block with
  | Tag name classes style (name_div :: columns) =>
      Tag name classes style (name_div :: badge :: columns)
  | _ => block
  end.

Definition cheese_long_badge : node := with_badge (nines_badge 4301) cheese.

(** ** What the price locator reads, and what the scan keeps *)

Section Reading_more.
Context {U : Unicode} {F : PyFloat}.

(** The match of [-\s*(\d+)%] in the text of the discount badge, when the
    container has a badge and its text holds one. *)
Definition badge_match (container : node) : option rmatch :=
  match find container div (utf8 "discount") with
  | Some discount_div =>
      re_search false discount_re (get_text discount_div)
  | None => None
  end.

(** The digits that match captures; none without a match. *)
Definition badge_digits (container : node) : str :=
  match badge_match container with
  | Some discount_match =>
      match group 1 (m_groups discount_match) with
      | Some ds => ds
      | None => []
      end
  | None => []
  end.

(** Whether the badge holds more digits than [int] converts. *)
Definition badge_too_long (container : node) : bool :=
  (int_max_str_digits <? N.of_nat (length (badge_digits container)))%N.

(** The values of decimal digits are below ten. *)
Definition decimal_values : Prop :=
  forall c v, digit_value c = Some v -> (v < 10)%N.

(** The price spans of the section of width 21%, and of the section of
    width 15%; none when the section is missing. *)
Definition wide_spans (container : node) : list node :=
  match find_style container div width21 with
  | Some old_price_div => find_all old_price_div span (utf8 "price")
  | None => []
  end.

Definition narrow_spans (container : node) : list node :=
  match find_style container div width15 with
  | Some new_price_div => find_all new_price_div span (utf8 "price")
  | None => []
  end.

(** The spans whose text the locator hands to [float], in the order it does:
    the first two of the wide section, then the first of the narrow section
    when the wide section has fewer than two. *)
Definition consulted (container : node) : list node :=
  firstn 2 (wide_spans container)
  ++ (if Nat.ltb (length (wide_spans container)) 2
      then firstn 1 (narrow_spans container) else []).

(** The number a span holds, if its text is one. *)
Definition number_of (s : node) : option pyfloat := float_of_str (get_text s).

(** The first span of a list whose text [float] rejects. *)
Fixpoint first_rejected (spans : list node) : option node :=
  match spans with
  | [] => None
  | s :: spans' =>
      match number_of s with
      | None => Some s
      | Some _ => first_rejected spans'
      end
  end.

(** The containers the assembler keeps, with their names and prices, in
    document order. *)
Definition kept (product_containers : list node) : list (str * Prices.t) :=
  flat_map
    (fun container =>
       match assemble container with
       | Ok (Some np) => [np]
       | _ => []
       end)
    product_containers.

(** The containers themselves that the assembler keeps, in document
    order. *)
Definition kept_containers (product_containers : list node) : list node :=
  filter
    (fun container =>
       match assemble container with
       | Ok (Some _) => true
       | _ => false
       end)
    product_containers.

(** The records of kept containers, stamped with the readings of the clock
    from [tick] on. *)
Fixpoint stamped (items : list (str * Prices.t)) (clock : nat -> str)
    (tick : nat) : list Product.t :=
  match items with
  | [] => []
  | (product_name, prices) :: rest =>
      record product_name prices (clock tick)
      :: stamped rest clock (S tick)
  end.
End Reading_more.

(** The loop of [*] inside [run], on its own: [n] iterations are left. *)
Section Star_loop.
Context {U : Unicode}.
Variable ic : bool.
Variable r : regex.
Variable k : str -> groups -> option (str * groups).

Fixpoint star_loop (n : nat) (s : str) (g : groups) {struct n}
    : option (str * groups) :=
  match n with
  | O => k s g
  | S n' =>
      match
        run ic r s g
          (fun s' g' =>
             if Nat.ltb (length s') (length s)
             then star_loop n' s' g' else None)
      with
      | Some res => Some res
      | None => k s g
      end
  end.
End Star_loop.

(** What [re.search] looks for: a word of the pattern at the start of the
    subject when the pattern starts with [^], anywhere in it otherwise. *)
Definition found {U : Unicode} (ic : bool) (p : pattern) (s : str) : Prop :=
  if anchored p
  then exists w rest g, s = w ++ rest /\ matches ic (body p) w [] g
  else occurs ic (body p) s.

(** The headers [is_non_product] knows by their letters alone. *)
Definition literal_headers : list str :=
  map utf8
    [ "валидност:"; "мултипак оферта"; "предстояща брошура";
      "седмична брошура"; "обратно на училище" ]%string.

(** The first characters of the patterns of [is_non_product] that start
    with [^] and a letter or a star. *)
Definition header_initials : list char :=
  map chr [ "п"; "в"; "н"; "*"; "м"; "с"; "о" ]%string.

(** A test on the lower-case text that every match of a pattern of
    [is_non_product] passes: the text starts with a digit or with one of
    [header_initials], or it holds a [w]. *)
Definition may_be_header {U : Unicode} (text_lower : str) : bool :=
  match text_lower with
  | c :: _ =>
      isdigit c || existsb (fun p => chr_match true p c) header_initials
  | [] => false
  end
  || existsb (chr_match true (chr "w")) text_lower.

(** ** The products [main] shows *)

Section Main.
Context {F : PyFloat}.

(** The truth value of a float: whether it differs from zero. *)
Variable truthy : pyfloat -> bool.

(** The truth value of [p.get(key)] for a price. *)
Definition shown (price : option pyfloat) : bool :=
  match price with
  | Some v => truthy v
  | None => false
  end.

Definition both_prices (p : Product.t) : bool :=
  shown (Product.old_price p) && shown (Product.new_price p).

(** Lines 232-234: the first five products with both prices, or the first
    five products when there is none. *)
Definition samples (products : list Product.t) : list Product.t :=
  let samples := firstn 5 (filter both_prices products) in
  match samples with
  | [] => firstn 5 products
  | _ :: _ => samples
  end.
End Main.

(** * Properties *)

Ltac inv H := inversion H; subst; clear H.

(** Take apart what is known of a word of a pattern whose head is not a
    loop. *)
Ltac inv_matches :=
  repeat match goal with
         | H : matches _ (Cat _ _) _ _ _ |- _ => inv H
         | H : matches _ (Alt _ _) _ _ _ |- _ => inv H
         | H : matches _ (Group _ _) _ _ _ |- _ => inv H
         | H : matches _ (Chr _) _ _ _ |- _ => inv H
         | H : matches _ Digit _ _ _ |- _ => inv H
         | H : matches _ Space _ _ _ |- _ => inv H
         | H : matches _ Dot _ _ _ |- _ => inv H
         | H : matches _ Eps _ _ _ |- _ => inv H
         end.

(** ** The matcher finds only what the pattern denotes *)

Section Matcher.
Context {U : Unicode}.
Variable ic : bool.

Lemma run_sound (r : regex) :
  forall s g k res,
    run ic r s g k = Some res ->
    exists w s' g',
      s = w ++ s' /\ matches ic r w g g' /\ k s' g' = Some res.
Proof.
  induction r as [ | p | | | | r1 IH1 r2 IH2 | r1 IH1 r2 IH2 | r IH | i r IH ];
    intros s g k res H; simpl in H.
  - exists [], s, g. repeat split; [constructor | exact H].
  - destruct s as [ | c s']; [discriminate | ].
    destruct (chr_match ic p c) eqn:E; [ | discriminate].
    exists [c], s', g. repeat split; [constructor; exact E | exact H].
  - destruct s as [ | c s']; [discriminate | ].
    destruct (char_eqb c newline) eqn:E; [discriminate | ].
    exists [c], s', g. repeat split; [constructor; exact E | exact H].
  - destruct s as [ | c s']; [discriminate | ].
    destruct (isdigit c) eqn:E; [ | discriminate].
    exists [c], s', g. repeat split; [constructor; exact E | exact H].
  - destruct s as [ | c s']; [discriminate | ].
    destruct (isspace c) eqn:E; [ | discriminate].
    exists [c], s', g. repeat split; [constructor; exact E | exact H].
  - apply IH1 in H. destruct H as (w1 & s1 & g1 & -> & M1 & H).
    apply IH2 in H. destruct H as (w2 & s2 & g2 & -> & M2 & H).
    exists (w1 ++ w2), s2, g2. rewrite app_assoc.
    repeat split; [econstructor; eassumption | exact H].
  - destruct (run ic r1 s g k) eqn:E.
    + inversion H; subst. apply IH1 in E.
      destruct E as (w & s' & g' & -> & M & E').
      exists w, s', g'. repeat split; [apply M_Alt_l; exact M | exact E'].
    + apply IH2 in H. destruct H as (w & s' & g' & -> & M & E').
      exists w, s', g'. repeat split; [apply M_Alt_r; exact M | exact E'].
  - revert H. generalize (length s). intros n. revert s g.
    induction n as [ | n IHn]; intros s g H.
    + exists [], s, g. repeat split; [constructor | exact H].
    + match type of H with
      | match ?x with _ => _ end = _ => destruct x eqn:E
      end.
      * inversion H; subst. apply IH in E.
        destruct E as (w1 & s1 & g1 & -> & M1 & E1).
        destruct (Nat.ltb (length s1) (length (w1 ++ s1))); [ | discriminate].
        apply IHn in E1. destruct E1 as (w2 & s2 & g2 & -> & M2 & E2).
        exists (w1 ++ w2), s2, g2. rewrite app_assoc.
        repeat split; [econstructor; eassumption | exact E2].
      * exists [], s, g. repeat split; [constructor | exact H].
  - apply IH in H. destruct H as (w & s' & g' & -> & M & H).
    exists w, s', ((i, w) :: g'). repeat split; [constructor; exact M | ].
    replace (length (w ++ s') - length s') with (length w) in H
      by (rewrite length_app; lia).
    rewrite firstn_app, firstn_all, Nat.sub_diag in H. simpl in H.
    rewrite app_nil_r in H. exact H.
Qed.

Lemma match_at_sound (r : regex) (pos : nat) (s : str) (m : rmatch) :
  match_at ic r pos s = Some m ->
  s = m_text m ++ m_rest m /\ matches ic r (m_text m) [] (m_groups m).
Proof.
  unfold match_at. intros H.
  destruct (run ic r s [] (fun s' g => Some (s', g))) as [[s' g] | ] eqn:E;
    [ | discriminate].
  inversion H; subst; clear H; simpl.
  apply run_sound in E. destruct E as (w & s1 & g1 & -> & M & E).
  inversion E; subst; clear E.
  replace (length (w ++ s') - length s') with (length w)
    by (rewrite length_app; lia).
  rewrite firstn_app, firstn_all, Nat.sub_diag. simpl. rewrite app_nil_r.
  split; [reflexivity | exact M].
Qed.

Lemma scan_sound (r : regex) (s : str) :
  forall pos m,
    scan ic r pos s = Some m ->
    exists before,
      s = before ++ m_text m ++ m_rest m
      /\ matches ic r (m_text m) [] (m_groups m).
Proof.
  induction s as [ | c s IH]; intros pos m H; simpl in H.
  - destruct (match_at ic r pos []) eqn:E; [ | discriminate].
    inversion H; subst. apply match_at_sound in E.
    exists []. exact E.
  - destruct (match_at ic r pos (c :: s)) eqn:E.
    + inversion H; subst. apply match_at_sound in E.
      exists []. exact E.
    + apply IH in H. destruct H as (before & -> & M).
      exists (c :: before). split; [reflexivity | exact M].
Qed.

Lemma re_search_sound (p : pattern) (s : str) (m : rmatch) :
  re_search ic p s = Some m ->
  exists before,
    s = before ++ m_text m ++ m_rest m
    /\ matches ic (body p) (m_text m) [] (m_groups m).
Proof.
  unfold re_search. destruct (anchored p); intros H.
  - apply match_at_sound in H. exists []. exact H.
  - apply scan_sound in H. exact H.
Qed.

(** Where every occurrence of the pattern is the replacement itself,
    [re.sub] changes nothing. *)
Lemma sub_go_skip (r : regex) (repl : str) (s : str) :
  (forall before w after g,
      s = before ++ w ++ after -> matches ic r w [] g ->
      w = repl /\ w <> []) ->
  forall n, n <= length s -> sub_go ic r repl s n = skipn n s.
Proof.
  induction s as [ | c s IH]; intros P n Hn.
  - destruct n; [ | simpl in Hn; lia]. simpl.
    destruct (match_at ic r 0 []) eqn:E; [ | reflexivity].
    apply match_at_sound in E. destruct E as [E M].
    destruct (P [] (m_text r0) (m_rest r0) (m_groups r0) E M) as [_ N].
    destruct (m_text r0); [contradiction | discriminate].
  - assert (P' : forall before w after g,
               s = before ++ w ++ after -> matches ic r w [] g ->
               w = repl /\ w <> []).
    { intros before w after g E M.
      apply (P (c :: before) w after g); [rewrite E; reflexivity | exact M]. }
    destruct n as [ | n].
    + simpl. destruct (match_at ic r 0 (c :: s)) eqn:E.
      * apply match_at_sound in E. destruct E as [E M].
        destruct (P [] (m_text r0) (m_rest r0) (m_groups r0) E M) as [R N].
        destruct (m_text r0) as [ | c' w'] eqn:W; [contradiction | ].
        simpl in E. inversion E; subst. simpl.
        rewrite IH by (try exact P'; rewrite length_app; lia).
        rewrite skipn_app, skipn_all, Nat.sub_diag. reflexivity.
      * rewrite IH by (try exact P'; lia). reflexivity.
    + simpl. apply IH; [exact P' | simpl in Hn; lia].
Qed.

Lemma re_sub_unchanged (r : regex) (repl : str) (s : str) :
  (forall before w after g,
      s = before ++ w ++ after -> matches ic r w [] g ->
      w = repl /\ w <> []) ->
  re_sub ic r repl s = s.
Proof.
  intros P. unfold re_sub. rewrite sub_go_skip by (try exact P; lia).
  reflexivity.
Qed.

Lemma re_sub_absent (r : regex) (repl : str) (s : str) :
  ~ occurs ic r s -> re_sub ic r repl s = s.
Proof.
  intros N. apply re_sub_unchanged. intros before w after g E M.
  exfalso. apply N. exists before, w, after, g. split; assumption.
Qed.
End Matcher.

(** ** The words of the patterns of the source *)

Section Words.
Context {U : Unicode}.
Variable ic : bool.

Lemma matches_star_digit w g g' :
  matches ic (Star Digit) w g g' -> digits w /\ g' = g.
Proof.
  intros H. remember (Star Digit) as r eqn:R.
  induction H; try discriminate; inv R.
  - split; [constructor | reflexivity].
  - inv_matches. destruct (IHmatches2 eq_refl) as [D ->].
    split; [constructor; assumption | reflexivity].
Qed.

Lemma matches_star_space w g g' :
  matches ic (Star Space) w g g' -> blanks w /\ g' = g.
Proof.
  intros H. remember (Star Space) as r eqn:R.
  induction H; try discriminate; inv R.
  - split; [constructor | reflexivity].
  - inv_matches. destruct (IHmatches2 eq_refl) as [D ->].
    split; [constructor; assumption | reflexivity].
Qed.

Lemma matches_plus_digit w g g' :
  matches ic (Plus Digit) w g g' -> digits w /\ w <> [] /\ g' = g.
Proof.
  intros H. unfold Plus in H. inv_matches.
  match goal with
  | S : matches _ (Star _) _ _ _ |- _ =>
      apply matches_star_digit in S; destruct S as [D ->]
  end.
  repeat split; [constructor; assumption | discriminate].
Qed.

Lemma matches_plus_space w g g' :
  matches ic (Plus Space) w g g' -> blanks w /\ w <> [] /\ g' = g.
Proof.
  intros H. unfold Plus in H. inv_matches.
  match goal with
  | S : matches _ (Star _) _ _ _ |- _ =>
      apply matches_star_space in S; destruct S as [D ->]
  end.
  repeat split; [constructor; assumption | discriminate].
Qed.
End Words.

(** ** Stripping and reading numbers *)

Section Numbers.
Context {U : Unicode}.

Lemma rstrip_last (s : str) (d : char) :
  s <> [] -> isspace (last s d) = false -> rstrip s = s.
Proof.
  induction s as [ | c s IH]; intros N L; [contradiction | ].
  destruct s as [ | c' s'].
  - simpl in *. rewrite L. reflexivity.
  - change (rstrip (c :: c' :: s'))
      with (match rstrip (c' :: s') with
            | [] => if isspace c then [] else [c]
            | t => c :: t
            end).
    rewrite IH; [reflexivity | discriminate | exact L].
Qed.

Lemma strip_trimmed (s : str) : trimmed s = true -> strip s = s.
Proof.
  destruct s as [ | c s']; [reflexivity | ].
  unfold trimmed, strip. intros H.
  apply andb_true_iff in H. destruct H as [H1 H2].
  apply negb_true_iff in H1. apply negb_true_iff in H2.
  replace (lstrip (c :: s')) with (c :: s') by (simpl; rewrite H1; reflexivity).
  apply rstrip_last with (d := c); [discriminate | exact H2].
Qed.

Lemma isdigit_value (c : char) :
  isdigit c = true -> exists v, digit_value c = Some v.
Proof.
  unfold isdigit. destruct (digit_value c) as [v | ];
    [exists v; reflexivity | discriminate].
Qed.

Lemma isdigit_not_space (c : char) : isdigit c = true -> isspace c = false.
Proof.
  intros H. apply isdigit_value in H. destruct H as [v H].
  exact (digit_not_space c H).
Qed.

Lemma digits_trimmed (d : str) : digits d -> trimmed d = true.
Proof.
  intros D. destruct d as [ | c d']; [reflexivity | ].
  unfold trimmed. apply andb_true_iff. split; apply negb_true_iff.
  - apply isdigit_not_space. inversion D; assumption.
  - apply isdigit_not_space.
    assert (I : In (last (c :: d') c) (c :: d')).
    { destruct (exists_last (l := c :: d')) as (l' & a & E);
        [discriminate | ].
      rewrite E, last_last. apply in_or_app. right. left. reflexivity. }
    unfold digits in D. rewrite Forall_forall in D. apply D. exact I.
Qed.

Lemma digitpart_more_digits (d : str) :
  digits d ->
  forall m n,
    exists m',
      digitpart_more d m n = (m', n + length d, [])
      /\ ((forall c v, digit_value c = Some v -> (v < 10)%N) ->
          (m' + 1 <= (m + 1) * 10 ^ N.of_nat (length d))%N).
Proof.
  induction 1 as [ | c d C D IH]; intros m n.
  - exists m. simpl. rewrite Nat.add_0_r. split; [reflexivity | ].
    intros _. lia.
  - apply isdigit_value in C. destruct C as [v C].
    cbn [digitpart_more]. rewrite C.
    destruct (IH (10 * m + v)%N (S n)) as (m' & E & B).
    exists m'. split.
    + rewrite E. cbn [length]. rewrite Nat.add_succ_r. reflexivity.
    + intros V. specialize (B V). apply V in C.
      cbn [length]. rewrite Nat2N.inj_succ, N.pow_succ_r'.
      remember (10 ^ N.of_nat (length d))%N as q. nia.
Qed.

Lemma sign_of_digit (c : char) (s : str) :
  isdigit c = true -> sign (c :: s) = (false, c :: s).
Proof.
  intros C. destruct (isdigit_value _ C) as [v V]. unfold sign.
  destruct (char_eqb c (chr "-")) eqn:E1.
  - apply N.eqb_eq in E1. change (chr "-") with 45%N in E1. subst c.
    rewrite minus_not_digit in V. discriminate.
  - destruct (char_eqb c (chr "+")) eqn:E2; [ | reflexivity].
    apply N.eqb_eq in E2. change (chr "+") with 43%N in E2. subst c.
    rewrite plus_not_digit in V. discriminate.
Qed.

(** [int] on a non-empty run of decimal digits: it raises when the digits
    are more than the limit, and otherwise reads a number that is not
    negative and, digits having values below ten, is below the power of ten
    of their count. *)
Lemma int_of_digits (d : str) :
  digits d -> d <> [] ->
  exists z,
    (0 <= z)%Z
    /\ int_of_str d
       = (if (int_max_str_digits <? N.of_nat (length d))%N
          then Raise (Exceeds_limit (length d)) else Ok z)
    /\ ((forall c v, digit_value c = Some v -> (v < 10)%N) ->
        (z < 10 ^ Z.of_nat (length d))%Z).
Proof.
  intros D N. unfold int_of_str.
  rewrite (strip_trimmed _ (digits_trimmed D)).
  destruct d as [ | c d']; [contradiction | ].
  inversion D as [ | c0 d0 C D']; subst.
  rewrite sign_of_digit by exact C.
  destruct (isdigit_value _ C) as [v V].
  unfold digitpart. rewrite V.
  destruct (digitpart_more_digits D' (10 * 0 + v)%N 1) as (m' & E & B).
  rewrite E. exists (Z.of_N m'). split; [lia | ].
  split; [reflexivity | ].
  intros W. specialize (B W). apply W in V.
  cbn [length]. rewrite Nat2Z.inj_succ, Z.pow_succ_r by lia.
  assert (P : Z.of_N (10 ^ N.of_nat (length d'))
              = (10 ^ Z.of_nat (length d'))%Z).
  { rewrite N2Z.inj_pow, nat_N_Z. reflexivity. }
  rewrite <- P. remember (10 ^ N.of_nat (length d'))%N as q. nia.
Qed.
End Numbers.

(** ** The price locator *)

Section Locator.
Context {U : Unicode} {F : PyFloat}.

(** A match of [-\s*(\d+)%] captures a non-empty run of digits. *)
Lemma discount_match_group (w : str) (g : groups) :
  matches false (body discount_re) w [] g ->
  exists d, g = [(1, d)] /\ digits d /\ d <> [].
Proof.
  intros M. cbn in M. inv_matches.
  repeat match goal with
         | S : matches _ (Star Space) _ _ _ |- _ =>
             apply matches_star_space in S; destruct S as [? ?]
         | S : matches _ (Plus Digit) _ _ _ |- _ =>
             apply matches_plus_digit in S; destruct S as (? & ? & ?)
         end.
  subst. eexists. split; [reflexivity | ]. split; assumption.
Qed.

(** The discount step: without a match in the badge the prices stay as
    they are; with one, [int] reads the digits it captures and raises when
    they are more than it converts. *)
Lemma discount_section_cases (container : node) (prices : Prices.t) :
  (badge_match container = None
   /\ badge_digits container = []
   /\ discount_section container prices = Ok prices)
  \/ exists discount_div m d z,
       find container div (utf8 "discount") = Some discount_div
       /\ re_search false discount_re (get_text discount_div) = Some m
       /\ group 1 (m_groups m) = Some d
       /\ badge_digits container = d
       /\ digits d /\ d <> []
       /\ (0 <= z)%Z
       /\ (decimal_values -> (z < 10 ^ Z.of_nat (length d))%Z)
       /\ int_of_str d
          = (if badge_too_long container
             then Raise (Exceeds_limit (length d)) else Ok z)
       /\ discount_section container prices
          = (if badge_too_long container
             then Raise (Exceeds_limit (length d))
             else Ok (set_discount prices z)).
Proof.
  unfold badge_too_long, badge_digits, badge_match, discount_section.
  destruct (find container div (utf8 "discount")) as [discount_div | ];
    [ | left; repeat split].
  destruct (re_search false discount_re (get_text discount_div))
    as [m | ] eqn:S; [ | left; repeat split].
  right. destruct (re_search_sound _ _ _ S) as (before & _ & M).
  apply discount_match_group in M. destruct M as (d & G & D & N).
  destruct (int_of_digits D N) as (z & P & I & B).
  exists discount_div, m, d, z. rewrite G. cbn [group Nat.eqb int].
  rewrite I.
  destruct (int_max_str_digits <? N.of_nat (length d))%N;
    repeat split; assumption.
Qed.

(** A badge within the limit: the discount step returns and leaves the
    prices alone. *)
Lemma discount_section_prices (container : node) (prices : Prices.t) :
  badge_too_long container = false ->
  exists p,
    discount_section container prices = Ok p
    /\ Prices.old_price p = Prices.old_price prices
    /\ Prices.new_price p = Prices.new_price prices.
Proof.
  intros L.
  destruct (discount_section_cases container prices)
    as [(_ & _ & E)
       | (dd & m & d & z & _ & _ & _ & _ & _ & _ & _ & _ & _ & E)];
    rewrite E; [ | rewrite L]; eexists; repeat split.
Qed.

(** A badge beyond the limit: the discount step raises. *)
Lemma discount_section_raises (container : node) (prices : Prices.t) :
  badge_too_long container = true ->
  discount_section container prices
  = Raise (Exceeds_limit (length (badge_digits container))).
Proof.
  intros L.
  destruct (discount_section_cases container prices)
    as [(_ & B & _)
       | (dd & m & d & z & _ & _ & _ & B & _ & _ & _ & _ & _ & E)].
  - unfold badge_too_long in L. rewrite B in L. discriminate.
  - rewrite E, L, B. reflexivity.
Qed.

Lemma discount_section_returns (container : node) (prices p : Prices.t) :
  discount_section container prices = Ok p ->
  badge_too_long container = false.
Proof.
  intros E. destruct (badge_too_long container) eqn:L; [ | reflexivity].
  rewrite (discount_section_raises container prices L) in E. discriminate.
Qed.

(** The locator stops at a badge beyond the limit. *)
Lemma extract_prices_long_badge (container : node) :
  badge_too_long container = true ->
  extract_prices_from_container container
  = Raise (Exceeds_limit (length (badge_digits container))).
Proof.
  intros L. unfold extract_prices_from_container.
  rewrite (discount_section_raises container _ L). reflexivity.
Qed.
End Locator.

Section Price_rules.
Context {U : Unicode} {F : PyFloat}.

Lemma float_ok (s : str) (v : pyfloat) :
  float_of_str s = Some v -> float s = Ok v.
Proof. unfold float. intros ->. reflexivity. Qed.

Lemma old_price_section_discount (container : node) (p p' : Prices.t) :
  old_price_section container p = Ok p' ->
  Prices.discount p' = Prices.discount p.
Proof.
  unfold old_price_section.
  destruct (find_style container div width21) as [d | ];
    [ | intros H; inversion H; reflexivity].
  destruct (find_all d span (utf8 "price")) as [ | first others];
    [intros H; inversion H; reflexivity | ].
  destruct (float (get_text first)) as [v | e]; simpl; [ | discriminate].
  destruct others as [ | second others'];
    [intros H; inversion H; reflexivity | ].
  destruct (float (get_text second)) as [v' | e]; simpl; [ | discriminate].
  intros H; inversion H; reflexivity.
Qed.

Lemma new_price_section_discount (container : node) (p p' : Prices.t) :
  new_price_section container p = Ok p' ->
  Prices.discount p' = Prices.discount p.
Proof.
  unfold new_price_section.
  destruct (Prices.new_price p); [intros H; inversion H; reflexivity | ].
  destruct (find_style container div width15) as [d | ];
    [ | intros H; inversion H; reflexivity].
  destruct (find_all d span (utf8 "price")) as [ | first others];
    [intros H; inversion H; reflexivity | ].
  destruct (float (get_text first)) as [v | e]; simpl; [ | discriminate].
  intros H; inversion H; reflexivity.
Qed.

End Price_rules.

(** ** The scan of the containers *)

Section Scan.
Context {U : Unicode} {F : PyFloat}.

(** What is known of a container the assembler keeps. *)
Lemma assemble_kept (container : node) (product_name : str)
    (prices : Prices.t) :
  assemble container = Ok (Some (product_name, prices)) ->
  3 < length product_name
  /\ extract_prices_from_container container = Ok prices
  /\ (Prices.old_price prices <> None \/ Prices.new_price prices <> None).
Proof.
  unfold assemble.
  destruct (find container div (utf8 "actualProduct")) as [product_div | ];
    [ | discriminate].
  unfold clean_product_name.
  destruct (Nat.ltb 3 (length (cleaned (get_text product_div)))) eqn:L;
    [ | discriminate].
  match goal with
  | |- (if ?b then _ else _) = _ -> _ => destruct b; [discriminate | ]
  end.
  destruct (is_non_product (cleaned (get_text product_div)));
    [discriminate | ].
  destruct (extract_prices_from_container container) as [p | e]; simpl;
    [ | discriminate].
  destruct (is_some (Prices.old_price p) || is_some (Prices.new_price p))
    eqn:P; [ | discriminate].
  intros H. inversion H; subst. apply Nat.ltb_lt in L.
  repeat split; [exact L | ].
  apply orb_true_iff in P.
  destruct P as [P | P]; [left | right];
    [destruct (Prices.old_price prices) | destruct (Prices.new_price prices)];
    simpl in P; discriminate.
Qed.

(** What holds of every record a kept container makes holds of every record
    the scan adds. *)
Lemma scan_containers_all (P : Product.t -> Prop) (cs : list node) :
  (forall container product_name prices at_,
      In container cs ->
      assemble container = Ok (Some (product_name, prices)) ->
      P (record product_name prices at_)) ->
  forall products w,
    Forall P products -> Forall P (fst (scan_containers cs products w)).
Proof.
  induction cs as [ | c cs IH]; intros K products w A; simpl; [exact A | ].
  assert (K' : forall container product_name prices at_,
             In container cs ->
             assemble container = Ok (Some (product_name, prices)) ->
             P (record product_name prices at_)).
  { intros container product_name prices at_ I E'.
    apply (K container); [right; exact I | exact E']. }
  destruct (assemble c) as [[[product_name prices] | ] | e] eqn:E.
  - apply IH; [exact K' | ]. apply Forall_app. split; [exact A | ].
    constructor; [ | constructor].
    apply (K c); [left; reflexivity | exact E].
  - apply IH; assumption.
  - apply IH; assumption.
Qed.

Lemma scan_containers_app (before after : list node) :
  forall products w,
    scan_containers (before ++ after) products w
    = let (products', w') := scan_containers before products w in
      scan_containers after products' w'.
Proof.
  induction before as [ | c before IH]; intros products w; simpl;
    [reflexivity | ].
  destruct (assemble c) as [[[product_name prices] | ] | e]; apply IH.
Qed.

(** The scan prints one line for each container that raises, in document
    order, and nothing else. *)
Lemma scan_containers_stdout (cs : list node) :
  forall products w,
    stdout (snd (scan_containers cs products w))
    = stdout w ++ diagnostics cs.
Proof.
  induction cs as [ | c cs IH]; intros products w; simpl.
  - rewrite app_nil_r. reflexivity.
  - destruct (assemble c) as [[[product_name prices] | ] | e]; simpl;
      rewrite IH; simpl; [reflexivity | reflexivity | ].
    rewrite <- app_assoc. reflexivity.
Qed.

(** The records depend on the clock only, not on what was printed. *)
Lemma scan_containers_same_clock (cs : list node) :
  forall products w1 w2,
    clock w1 = clock w2 -> ticks w1 = ticks w2 ->
    fst (scan_containers cs products w1)
    = fst (scan_containers cs products w2).
Proof.
  induction cs as [ | c cs IH]; intros products w1 w2 C T; simpl;
    [reflexivity | ].
  destruct (assemble c) as [[[product_name prices] | ] | e]; simpl.
  - rewrite C, T. apply IH; simpl; congruence.
  - apply IH; assumption.
  - apply IH; assumption.
Qed.

(** Without their time stamps, the records depend on the document only. *)
Lemma scan_containers_untimed (cs : list node) :
  forall products1 products2 w1 w2,
    map untimed products1 = map untimed products2 ->
    map untimed (fst (scan_containers cs products1 w1))
    = map untimed (fst (scan_containers cs products2 w2)).
Proof.
  induction cs as [ | c cs IH]; intros products1 products2 w1 w2 E; simpl;
    [exact E | ].
  destruct (assemble c) as [[[product_name prices] | ] | e]; simpl.
  - apply IH. rewrite !map_app, E. reflexivity.
  - apply IH; assumption.
  - apply IH; assumption.
Qed.
End Scan.

Section Records.
Context {U : Unicode} {F : PyFloat}.

(** C3. Every record of every document has an old price or a new price, and
    a container whose prices are both absent adds nothing to the scan. *)
Theorem acceptance_invariant :
  (forall soup w, Forall has_price (fst (extract_products soup w)))
  /\ (forall container rest products w prices,
         extract_prices_from_container container = Ok prices ->
         Prices.old_price prices = None ->
         Prices.new_price prices = None ->
         scan_containers (container :: rest) products w
         = scan_containers rest products w).
Proof.
  split.
  - intros soup w. unfold extract_products.
    apply scan_containers_all; [ | constructor].
    intros container product_name prices at_ _ A.
    apply assemble_kept in A. destruct A as (_ & _ & A). exact A.
  - intros container rest products w prices X O N. simpl.
    assert (A : assemble container = Ok None).
    { unfold assemble.
      destruct (find container div (utf8 "actualProduct"));
        [ | reflexivity].
      destruct (clean_product_name (get_text n)); [ | reflexivity].
      match goal with
      | |- (if ?b then _ else _) = _ => destruct b; [reflexivity | ]
      end.
      destruct (is_non_product s); [reflexivity | ].
      rewrite X. simpl. rewrite O, N. reflexivity. }
    rewrite A. reflexivity.
Qed.

(** C4. A container whose assembly raises is dropped and the scan goes on:
    the records of the document are those of the document without that
    container, and the lines printed are those of the containers before it,
    one line for it, and those of the containers after it. *)
Theorem fault_isolation
    (soup : node) (w : world) (before after : list node) (block : node)
    (e : exn) :
  find_all soup div (utf8 "product") = before ++ block :: after ->
  assemble block = Raise e ->
  fst (extract_products soup w) = fst (scan_containers (before ++ after) [] w)
  /\ stdout (snd (extract_products soup w))
     = stdout w ++ diagnostics before
       ++ Error_processing_product e :: diagnostics after.
Proof.
  intros C A. unfold extract_products. rewrite C. split.
  - rewrite !scan_containers_app.
    destruct (scan_containers before [] w) as [products' w'].
    simpl. rewrite A. apply scan_containers_same_clock; reflexivity.
  - rewrite scan_containers_stdout. f_equal.
    unfold diagnostics. rewrite flat_map_app. simpl. rewrite A. reflexivity.
Qed.

(** C7. The normalizer returns nothing when the cleaned text has three
    characters or fewer, and the name of every record has more than
    three. *)
Theorem name_constraint :
  (forall text, length (cleaned text) <= 3 -> clean_product_name text = None)
  /\ (forall soup w,
         Forall (fun r => 3 < length (Product.name r))
           (fst (extract_products soup w))).
Proof.
  split.
  - intros text L. unfold clean_product_name.
    destruct (Nat.ltb_spec 3 (length (cleaned text))); [lia | reflexivity].
  - intros soup w. unfold extract_products.
    apply scan_containers_all; [ | constructor].
    intros container product_name prices at_ _ A.
    apply assemble_kept in A. destruct A as (A & _). exact A.
Qed.

(** Where the discount of the prices comes from. *)
Lemma extract_prices_discount (container : node) (prices : Prices.t) (d : Z) :
  extract_prices_from_container container = Ok prices ->
  Prices.discount prices = Some d ->
  exists discount_div m ds,
    find container div (utf8 "discount") = Some discount_div
    /\ re_search false discount_re (get_text discount_div) = Some m
    /\ group 1 (m_groups m) = Some ds
    /\ digits ds /\ ds <> []
    /\ (N.of_nat (length ds) <= int_max_str_digits)%N
    /\ int_of_str ds = Ok d
    /\ (0 <= d)%Z
    /\ (decimal_values -> (d < 10 ^ Z.of_N int_max_str_digits)%Z).
Proof.
  unfold extract_prices_from_container.
  set (init := {| Prices.old_price := None; Prices.new_price := None;
                  Prices.discount := None |}).
  intros X D.
  destruct (discount_section container init) as [p0 | ] eqn:S; simpl in X;
    [ | discriminate].
  destruct (old_price_section container p0) as [p1 | ] eqn:O; simpl in X;
    [ | discriminate].
  destruct (new_price_section container p1) as [p2 | ] eqn:N; simpl in X;
    [ | discriminate].
  inversion X; subst.
  apply new_price_section_discount in N.
  apply old_price_section_discount in O.
  rewrite N, O in D.
  pose proof (discount_section_returns _ _ S) as L.
  destruct (discount_section_cases container init)
    as [(_ & _ & E)
       | (dd & m & ds & z & Fd & Sm & G & Bd & Dg & Ne & P & B & I & E)];
    rewrite E in S; [inversion S; subst; simpl in D; discriminate | ].
  rewrite L in S, I. inversion S; subst p0. simpl in D.
  inversion D; subst z.
  assert (Q : (N.of_nat (length ds) <= int_max_str_digits)%N).
  { unfold badge_too_long in L. rewrite Bd in L.
    apply N.ltb_ge in L. exact L. }
  exists dd, m, ds. repeat split; try assumption.
  intros V. specialize (B V).
  assert (M : (10 ^ Z.of_nat (length ds) <= 10 ^ Z.of_N int_max_str_digits)%Z)
    by (apply Z.pow_le_mono_r; lia).
  lia.
Qed.

(** C9, as the code has it.  Two scans of one document yield the same
    records up to [extracted_at], and the very same records when the clock
    reads the same; what a scan prints is decided by the document. *)
Theorem determinism_up_to_clock (soup : node) :
  (forall w1 w2,
      map untimed (fst (extract_products soup w1))
      = map untimed (fst (extract_products soup w2)))
  /\ (forall w1 w2,
         clock w1 = clock w2 -> ticks w1 = ticks w2 ->
         fst (extract_products soup w1) = fst (extract_products soup w2))
  /\ (forall w,
         stdout (snd (extract_products soup w))
         = stdout w ++ diagnostics (find_all soup div (utf8 "product"))).
Proof.
  repeat split.
  - intros w1 w2. apply scan_containers_untimed. reflexivity.
  - intros w1 w2. apply scan_containers_same_clock.
  - intros w. apply scan_containers_stdout.
Qed.
End Records.

(** ** Names the normalizer leaves alone *)

Section Clean_names.
Context {U : Unicode} {F : PyFloat}.

Lemma single_spaced_suffix (before t : str) :
  single_spaced (before ++ t) = true -> single_spaced t = true.
Proof.
  induction before as [ | c before IH]; simpl; [trivial | ].
  intros H. apply andb_true_iff in H. destruct H as [_ H]. exact (IH H).
Qed.

(** In a single-spaced string every run of white space is one space. *)
Lemma single_spaced_run (before w after : str) :
  single_spaced (before ++ w ++ after) = true ->
  blanks w -> w <> [] -> w = [space].
Proof.
  intros H B N. apply single_spaced_suffix in H.
  destruct w as [ | c w']; [contradiction | ].
  inversion B as [ | c0 w0 C B']; subst.
  simpl in H. rewrite C in H.
  apply andb_true_iff in H. destruct H as [H _].
  apply andb_true_iff in H. destruct H as [E H].
  apply N.eqb_eq in E. subst c.
  destruct w' as [ | d w'']; [reflexivity | ].
  inversion B' as [ | d0 w0 D _]; subst.
  simpl in H. rewrite D in H. discriminate.
Qed.

Lemma price_has_point (s : str) :
  occurs false price_re s -> In (chr ".") s.
Proof.
  intros (before & w & after & g & -> & M).
  unfold price_re in M. vm_compute in M. inv_matches.
  all: match goal with
       | H : chr_match false 46 ?c = true |- _ =>
           apply N.eqb_eq in H; subst c
       end.
  all: change (chr ".") with 46%N.
  all: rewrite !in_app_iff; simpl; intuition auto.
Qed.

Lemma label_has_tse (s : str) :
  occurs true label_re s ->
  exists c, In c s /\ chr_match true (chr "ц") c = true.
Proof.
  intros (before & w & after & g & -> & M).
  unfold label_re in M. vm_compute in M. inv_matches.
  all: match goal with
       | H : chr_match true 1094 ?c = true |- _ =>
           exists c; split; [ | exact H]
       end.
  all: rewrite !in_app_iff; simpl; intuition auto.
Qed.


End Clean_names.

Section Patterns.
Context {U : Unicode}.

Lemma any_pattern_hit (patterns : list pattern) (t : str) :
  any_pattern patterns t = true
  <-> exists p, In p patterns /\ re_search true p t <> None.
Proof.
  induction patterns as [ | p patterns IH]; simpl.
  - split; [discriminate | intros (p & [] & _)].
  - destruct (re_search true p t) eqn:E.
    + split; [ | reflexivity]. intros _. exists p.
      split; [left; reflexivity | rewrite E; discriminate].
    + rewrite IH. split.
      * intros (q & I & H). exists q. split; [right; exact I | exact H].
      * intros (q & [<- | I] & H); [rewrite E in H; contradiction | ].
        exists q. split; assumption.
Qed.
End Patterns.

Section Samples.
#[local] Existing Instance sample_unicode.
#[local] Existing Instance decimal_float.
Local Open Scope string_scope.

(** C5. Each exclusion pattern rejects the example of its category, whatever
    the case of its letters; a product name is kept; a text is rejected as
    soon as one pattern is found in its lower-case form, so that texts equal
    up to case get the same verdict. *)
Theorem exclusion_completeness :
  Forall2
    (fun p t => re_search true p (lower t) <> None /\ is_non_product t = true)
    non_product_patterns category_examples
  /\ Forall (fun t => is_non_product (map sample_tolower t) = true)
       category_examples
  /\ is_non_product milk = false
  /\ (forall (U : Unicode) t,
         @is_non_product U t = true
         <-> exists p,
               In p non_product_patterns
               /\ @re_search U true p (lower t) <> None)
  /\ (forall (U : Unicode) t t',
         lower t = lower t' -> @is_non_product U t = @is_non_product U t').
Proof.
  split; [ | split; [ | split; [ | split]]].
  - repeat (constructor;
            [split; [vm_compute; discriminate | vm_compute; reflexivity] | ]).
    constructor.
  - repeat (constructor; [vm_compute; reflexivity | ]). constructor.
  - vm_compute. reflexivity.
  - intros V t. unfold is_non_product. apply any_pattern_hit.
  - intros V t t' E. unfold is_non_product. rewrite E. reflexivity.
Qed.

Lemma acceptance_invariant_witness :
  scan_containers [product_block "Хляб Добруджа 650г" None [] []; ham]
    [] monday
  = scan_containers [ham] [] monday.
Proof.
  apply (proj2 (@acceptance_invariant sample_unicode decimal_float)
           (product_block "Хляб Добруджа 650г" None [] []) [ham] [] monday
           {| Prices.old_price := None; Prices.new_price := None;
              Prices.discount := None |});
    vm_compute; reflexivity.
Defined.

Lemma fault_isolation_witness :
  length (fst (extract_products five_blocks monday)) = 4
  /\ stdout (snd (extract_products five_blocks monday))
     = [Error_processing_product (ValueError (utf8 "N/A"))].
Proof.
  destruct (@fault_isolation sample_unicode decimal_float five_blocks monday
              [ham; cheese] [bread; coffee] butter (ValueError (utf8 "N/A")))
    as [R S]; [vm_compute; reflexivity | vm_compute; reflexivity | ].
  rewrite R, S. split; vm_compute; reflexivity.
Defined.

Lemma name_constraint_witness : clean_product_name (utf8 "Чай") = None.
Proof.
  apply (proj1 (@name_constraint sample_unicode decimal_float) (utf8 "Чай")).
  apply Nat.leb_le. vm_compute. reflexivity.
Defined.


(** C8 as stated fails: a badge of [-150%] gives a discount of 150. *)
Lemma discount_above_100 :
  ~ (forall soup w r d,
        In r (fst (extract_products soup w)) ->
        Product.discount_percent r = Some d -> (0 <= d <= 100)%Z).
Proof.
  intros H.
  assert (X : exists r,
             In r (fst (extract_products (page [lemonade]) monday))
             /\ Product.discount_percent r = Some 150%Z).
  { vm_compute. eexists. split; [left; reflexivity | reflexivity]. }
  destruct X as (r & I & D). specialize (H _ _ _ _ I D). lia.
Qed.

(** C9 as stated fails: the same document scanned on two days gives records
    that differ in [extracted_at]. *)
Lemma records_differ_by_clock :
  ~ (forall soup w1 w2,
        fst (extract_products soup w1) = fst (extract_products soup w2)).
Proof.
  intros H. specialize (H (page [ham]) monday tuesday).
  vm_compute in H. discriminate.
Qed.

Lemma determinism_up_to_clock_witness :
  map untimed (fst (extract_products five_blocks monday))
  = map untimed (fst (extract_products five_blocks tuesday)).
Proof.
  exact (proj1 (@determinism_up_to_clock sample_unicode decimal_float
                  five_blocks) monday tuesday).
Defined.

(** The scenario of one container: name, badge of 20%, wide section of two
    prices. *)
Example one_container :
  fst (extract_products (page [ham]) monday)
  = [ {| Product.name := utf8 "Шунка Пиле 300г";
         Product.old_price := Some (Finite false 800 (-2));
         Product.new_price := Some (Finite false 640 (-2));
         Product.currency := utf8 "лв.";
         Product.discount_percent := Some 20%Z;
         Product.extracted_at := utf8 "2025-01-06T09:00:00" |} ].
Proof. vm_compute. reflexivity. Qed.
End Samples.

(** ** More on the price locator *)

Section Locator_cases.
Context {U : Unicode} {F : PyFloat}.

Lemma old_price_section_wide (container : node) (prices : Prices.t) :
  old_price_section container prices
  = match wide_spans container with
    | first :: others =>
        v <- float (get_text first) ;;
        match others with
        | second :: _ =>
            v' <- float (get_text second) ;;
            Ok (set_new_price (set_old_price prices v) v')
        | [] => Ok (set_old_price prices v)
        end
    | [] => Ok prices
    end.
Proof.
  unfold old_price_section, wide_spans.
  destruct (find_style container div width21) as [d | ]; reflexivity.
Qed.

Lemma new_price_section_narrow (container : node) (prices : Prices.t) :
  new_price_section container prices
  = match Prices.new_price prices with
    | Some _ => Ok prices
    | None =>
        match narrow_spans container with
        | first :: _ =>
            v <- float (get_text first) ;; Ok (set_new_price prices v)
        | [] => Ok prices
        end
    end.
Proof.
  unfold new_price_section, narrow_spans.
  destruct (Prices.new_price prices); [reflexivity | ].
  destruct (find_style container div width15) as [d | ]; reflexivity.
Qed.

Lemma first_rejected_spec (spans : list node) (s : node) :
  first_rejected spans = Some s
  <-> exists before after,
        spans = before ++ s :: after
        /\ Forall (fun x => number_of x <> None) before
        /\ number_of s = None.
Proof.
  induction spans as [ | x spans IH]; simpl.
  - split; [discriminate | ].
    intros (before & after & E & _). destruct before; discriminate.
  - destruct (number_of x) as [v | ] eqn:X.
    + rewrite IH. split.
      * intros (before & after & -> & B & S).
        exists (x :: before), after. repeat split; [ | exact S].
        constructor; [congruence | exact B].
      * intros (before & after & E & B & S).
        destruct before as [ | b before']; inversion E; subst;
          [congruence | ].
        exists before', after. inversion B; subst. repeat split; assumption.
    + split.
      * intros H. inversion H; subst.
        exists [], spans. repeat split; [constructor | exact X].
      * intros (before & after & E & B & S).
        destruct before as [ | b before']; inversion E; subst;
          [reflexivity | ].
        inversion B; subst. contradiction.
Qed.

Lemma first_rejected_none (spans : list node) :
  first_rejected spans = None
  <-> Forall (fun x => number_of x <> None) spans.
Proof.
  induction spans as [ | x spans IH]; simpl.
  - split; [constructor | reflexivity].
  - destruct (number_of x) as [v | ] eqn:X.
    + rewrite IH. split; intros H.
      * constructor; [congruence | exact H].
      * inversion H; assumption.
    + split; [discriminate | ]. intros H. inversion H; subst. contradiction.
Qed.

(** The locator as one case distinction: it raises for the first consulted
    span that is no number, and otherwise returns the numbers of the spans
    and the discount of the badge. *)
Lemma locator_equation (container : node) (p : Prices.t) :
  discount_section container
    {| Prices.old_price := None; Prices.new_price := None;
       Prices.discount := None |} = Ok p ->
  extract_prices_from_container container
  = match first_rejected (consulted container) with
    | Some s => Raise (ValueError (get_text s))
    | None =>
        Ok {| Prices.old_price :=
                match wide_spans container with
                | s :: _ => number_of s
                | [] => None
                end;
              Prices.new_price :=
                match wide_spans container with
                | _ :: s :: _ => number_of s
                | _ =>
                    match narrow_spans container with
                    | s :: _ => number_of s
                    | [] => None
                    end
                end;
              Prices.discount := Prices.discount p |}
    end.
Proof.
  intros D.
  destruct (discount_section_prices container
              {| Prices.old_price := None; Prices.new_price := None;
                 Prices.discount := None |}
              (discount_section_returns _ _ D)) as (p' & D' & O & N).
  rewrite D in D'. inversion D'; subst p'. simpl in O, N.
  unfold extract_prices_from_container. rewrite D. simpl.
  rewrite old_price_section_wide. unfold consulted.
  destruct p as [o n d]. simpl in O, N. subst o n.
  destruct (wide_spans container) as [ | first [ | second others]]; simpl.
  - rewrite new_price_section_narrow. simpl.
    destruct (narrow_spans container) as [ | nfirst nothers]; simpl;
      [reflexivity | ].
    unfold number_of, float.
    destruct (float_of_str (get_text nfirst)); reflexivity.
  - unfold number_of, float.
    destruct (float_of_str (get_text first)); simpl; [ | reflexivity].
    rewrite new_price_section_narrow. simpl.
    destruct (narrow_spans container) as [ | nfirst nothers]; simpl;
      [reflexivity | ].
    unfold number_of, float.
    destruct (float_of_str (get_text nfirst)); reflexivity.
  - unfold number_of, float.
    destruct (float_of_str (get_text first)); simpl; [ | reflexivity].
    destruct (float_of_str (get_text second)); simpl; reflexivity.
Qed.

(** X1.  The locator raises in two cases and in no other.  A badge whose
    [-NN%] holds more digits than [int] converts makes it raise at once,
    whatever the price spans hold.  Otherwise it raises exactly when [float]
    rejects the text of a span it consults, and what it raises is the
    [ValueError] of the first such span; a span it does not consult may hold
    anything. *)
Theorem locator_raises_iff (container : node) (e : exn) :
  extract_prices_from_container container = Raise e
  <-> (badge_too_long container = true
       /\ e = Exceeds_limit (length (badge_digits container)))
      \/ (badge_too_long container = false
          /\ exists before s after,
               consulted container = before ++ s :: after
               /\ Forall (fun x => number_of x <> None) before
               /\ number_of s = None
               /\ e = ValueError (get_text s)).
Proof.
  destruct (badge_too_long container) eqn:L.
  { rewrite (extract_prices_long_badge container L). split.
    - intros H. inversion H; subst. left. split; reflexivity.
    - intros [[_ ->] | [X _]]; [reflexivity | discriminate]. }
  destruct (discount_section_prices container
              {| Prices.old_price := None; Prices.new_price := None;
                 Prices.discount := None |} L) as (p & D & _ & _).
  rewrite (locator_equation _ D).
  destruct (first_rejected (consulted container)) as [s | ] eqn:R.
  - apply first_rejected_spec in R.
    destruct R as (before & after & E & B & S). split.
    + intros H. inversion H; subst. right. split; [reflexivity | ].
      exists before, s, after. repeat split; assumption.
    + intros [[X _] | (_ & before' & s' & after' & E' & B' & S' & ->)];
        [discriminate | ].
      assert (R' : first_rejected (consulted container) = Some s')
        by (apply first_rejected_spec; exists before', after';
            repeat split; assumption).
      assert (R : first_rejected (consulted container) = Some s)
        by (apply first_rejected_spec; exists before, after;
            repeat split; assumption).
      rewrite R in R'. inversion R'; subst. reflexivity.
  - split; [discriminate | ].
    intros [[X _] | (_ & before & s & after & E & B & S & _)];
      [discriminate | ].
    assert (R' : first_rejected (consulted container) = Some s)
      by (apply first_rejected_spec; exists before, after;
          repeat split; assumption).
    rewrite R in R'. discriminate.
Qed.

(** X2.  When the badge is within the limit of [int] and every consulted
    span holds a number, the locator returns: the old price is the number of
    the first span of the wide section and of nothing else, the new price is
    the number of its second span or, when it has none, of the first span of
    the narrow section. *)
Theorem locator_returns (container : node) :
  badge_too_long container = false ->
  Forall (fun x => number_of x <> None) (consulted container) ->
  exists prices,
    extract_prices_from_container container = Ok prices
    /\ Prices.old_price prices
       = match wide_spans container with
         | s :: _ => number_of s
         | [] => None
         end
    /\ Prices.new_price prices
       = match wide_spans container with
         | _ :: s :: _ => number_of s
         | _ =>
             match narrow_spans container with
             | s :: _ => number_of s
             | [] => None
             end
         end.
Proof.
  intros L A. apply first_rejected_none in A.
  destruct (discount_section_prices container
              {| Prices.old_price := None; Prices.new_price := None;
                 Prices.discount := None |} L) as (p & D & _ & _).
  rewrite (locator_equation _ D), A.
  eexists. repeat split.
Qed.
End Locator_cases.

(** ** The scan as a list of kept containers *)

Section Scan_spec.
Context {U : Unicode} {F : PyFloat}.

Lemma scan_containers_spec (cs : list node) :
  forall products w,
    scan_containers cs products w
    = (products ++ stamped (kept cs) (clock w) (ticks w),
       {| clock := clock w;
          ticks := ticks w + length (kept cs);
          stdout := stdout w ++ diagnostics cs |}).
Proof.
  induction cs as [ | c cs IH]; intros products w; simpl.
  - rewrite !app_nil_r, Nat.add_0_r. destruct w; reflexivity.
  - unfold kept, diagnostics in *. simpl.
    destruct (assemble c) as [[[product_name prices] | ] | e]; simpl.
    + rewrite IH. simpl. rewrite <- app_assoc. simpl.
      rewrite Nat.add_succ_r. reflexivity.
    + rewrite IH. reflexivity.
    + rewrite IH. simpl. rewrite <- app_assoc. reflexivity.
Qed.

(** X3.  The list [extract_products] returns holds one record for each
    container the assembler keeps, in document order; the record of the [i]-th
    kept container carries the [i]-th reading of the clock after the start,
    the clock is read once for each record and never otherwise, and the lines
    printed are one for each container that raised. *)
Theorem extract_products_spec (soup : node) (w : world) :
  let cs := find_all soup div (utf8 "product") in
  extract_products soup w
  = (stamped (kept cs) (clock w) (ticks w),
     {| clock := clock w;
        ticks := ticks w + length (kept cs);
        stdout := stdout w ++ diagnostics cs |}).
Proof.
  intros cs. unfold extract_products. fold cs.
  rewrite scan_containers_spec. reflexivity.
Qed.

Lemma stamped_length (items : list (str * Prices.t)) (clock : nat -> str) :
  forall tick, length (stamped items clock tick) = length items.
Proof.
  induction items as [ | [n p] items IH]; intros tick; simpl;
    [reflexivity | rewrite IH; reflexivity].
Qed.

(** X4.  A container gives one record, or one printed line, or nothing, never
    two of them: records and lines together are no more than containers. *)
Theorem one_outcome_per_container (soup : node) (w : world) :
  let cs := find_all soup div (utf8 "product") in
  length (fst (extract_products soup w)) + length (diagnostics cs)
  <= length cs
  /\ length (stdout (snd (extract_products soup w)))
     = length (stdout w) + length (diagnostics cs).
Proof.
  intros cs. unfold extract_products. fold cs.
  rewrite scan_containers_spec. simpl.
  rewrite stamped_length, length_app. split; [ | reflexivity].
  unfold kept, diagnostics.
  induction cs as [ | c cs IH]; simpl; [lia | ].
  rewrite !length_app.
  destruct (assemble c) as [[np | ] | e]; simpl; lia.
Qed.
End Scan_spec.

(** ** What the normalizer returns *)

Section Normal_form.
Context {U : Unicode}.

(** The loop of [\s*] takes all the white space there is. *)
Lemma run_star_space (s : str) :
  forall g,
    run false (Star Space) s g (fun s' g' => Some (s', g'))
    = Some (lstrip s, g).
Proof.
  induction s as [ | c s IH]; intros g.
  - reflexivity.
  - specialize (IH g). simpl in IH |- *.
    destruct (isspace c) eqn:E; [ | reflexivity].
    assert (L : (length s <? S (length s)) = true)
      by (apply Nat.ltb_lt; lia).
    rewrite L, IH. reflexivity.
Qed.

Lemma lstrip_suffix (s : str) :
  exists w, s = w ++ lstrip s /\ blanks w.
Proof.
  induction s as [ | c s (w & E & B)]; simpl.
  - exists []. split; [reflexivity | constructor].
  - destruct (isspace c) eqn:C.
    + exists (c :: w). split; [simpl; rewrite <- E; reflexivity | ].
      constructor; assumption.
    + exists []. split; [reflexivity | constructor].
Qed.

Lemma lstrip_head (s : str) (c : char) (t : str) :
  lstrip s = c :: t -> isspace c = false.
Proof.
  induction s as [ | x s IH]; simpl; [discriminate | ].
  destruct (isspace x) eqn:X; [exact IH | ].
  intros H. inversion H; subst. exact X.
Qed.

Lemma lstrip_length (s : str) : length (lstrip s) <= length s.
Proof.
  destruct (lstrip_suffix s) as (w & E & _).
  remember (lstrip s) as t eqn:T. clear T. subst s.
  rewrite length_app. lia.
Qed.

Lemma skipn_lstrip (s : str) :
  skipn (length s - length (lstrip s)) s = lstrip s.
Proof.
  destruct (lstrip_suffix s) as (w & E & _).
  remember (lstrip s) as t eqn:T. clear T. subst s.
  rewrite length_app.
  replace (length w + length t - length t) with (length w) by lia.
  rewrite skipn_app, skipn_all, Nat.sub_diag. reflexivity.
Qed.

Lemma sub_go_skipn (ic : bool) (r : regex) (repl s : str) :
  forall skip,
    skip <= length s ->
    sub_go ic r repl s skip = sub_go ic r repl (skipn skip s) 0.
Proof.
  induction s as [ | c s IH]; intros skip L.
  - destruct skip; [reflexivity | simpl in L; lia].
  - destruct skip as [ | n]; [reflexivity | ].
    simpl. apply IH. simpl in L. lia.
Qed.

(** [re.sub(r'\s+', repl, s)], one character at a time. *)
Lemma re_sub_spaces_nil (repl : str) : re_sub false spaces_re repl [] = [].
Proof. reflexivity. Qed.

Lemma re_sub_spaces_cons (repl : str) (c : char) (s : str) :
  re_sub false spaces_re repl (c :: s)
  = if isspace c then repl ++ re_sub false spaces_re repl (lstrip s)
    else c :: re_sub false spaces_re repl s.
Proof.
  unfold re_sub. change (sub_go false spaces_re repl (c :: s) 0)
    with (match match_at false spaces_re 0 (c :: s) with
          | Some m =>
              match length (m_text m) with
              | O => repl ++ c :: sub_go false spaces_re repl s 0
              | S n => repl ++ sub_go false spaces_re repl s n
              end
          | None => c :: sub_go false spaces_re repl s 0
          end).
  unfold match_at, spaces_re, Plus.
  change (run false (Cat Space (Star Space)) (c :: s) []
            (fun s' g => Some (s', g)))
    with (if isspace c
          then run false (Star Space) s [] (fun s' g => Some (s', g))
          else None).
  destruct (isspace c); [ | reflexivity].
  rewrite run_star_space. cbn [m_text].
  pose proof (lstrip_length s) as L.
  replace (length (c :: s) - length (lstrip s))
    with (S (length s - length (lstrip s)))
    by (change (length (c :: s)) with (S (length s)); lia).
  rewrite firstn_cons. cbn [length].
  rewrite length_firstn, Nat.min_l by lia.
  rewrite sub_go_skipn by lia. rewrite skipn_lstrip. reflexivity.
Qed.

Lemma single_spaced_prefix (a b : str) :
  single_spaced (a ++ b) = true -> single_spaced a = true.
Proof.
  induction a as [ | c a IH]; [reflexivity | ]. simpl.
  intros H. apply andb_true_iff in H. destruct H as [H T].
  rewrite (IH T), andb_true_r.
  destruct (isspace c); [ | reflexivity].
  apply andb_true_iff in H. destruct H as [E N]. rewrite E. simpl.
  destruct a as [ | d a']; [reflexivity | exact N].
Qed.

(** After [re.sub(r'\s+', ' ', s)] every white-space character is a space
    and no two follow each other. *)
Lemma re_sub_spaces_single_spaced (n : nat) :
  forall s,
    length s <= n ->
    single_spaced (re_sub false spaces_re (utf8 " ") s) = true.
Proof.
  induction n as [ | n IH]; intros s L.
  - destruct s; [reflexivity | simpl in L; lia].
  - destruct s as [ | c s]; [reflexivity | ].
    rewrite re_sub_spaces_cons. simpl in L.
    destruct (isspace c) eqn:C.
    + pose proof (lstrip_length s) as Ls.
      assert (T : single_spaced
                    (re_sub false spaces_re (utf8 " ") (lstrip s)) = true)
        by (apply IH; lia).
      change (utf8 " " ++ re_sub false spaces_re (utf8 " ") (lstrip s))
        with (space :: re_sub false spaces_re (utf8 " ") (lstrip s)).
      cbn [single_spaced]. rewrite T, andb_true_r.
      destruct (isspace space); [ | reflexivity].
      unfold char_eqb. rewrite N.eqb_refl. simpl.
      destruct (lstrip s) as [ | d t] eqn:D; [reflexivity | ].
      assert (Hd : isspace d = false) by (eapply lstrip_head; exact D).
      rewrite re_sub_spaces_cons, Hd. rewrite Hd. reflexivity.
    + cbn [single_spaced]. rewrite C. simpl. apply IH. lia.
Qed.

Lemma rstrip_prefix (s : str) :
  exists w, s = rstrip s ++ w /\ blanks w.
Proof.
  induction s as [ | c s (w & E & B)].
  - exists []. split; [reflexivity | constructor].
  - change (rstrip (c :: s))
      with (match rstrip s with
            | [] => if isspace c then [] else [c]
            | t => c :: t
            end).
    destruct (rstrip s) as [ | d t] eqn:R.
    + simpl in E. subst w.
      destruct (isspace c) eqn:C.
      * exists (c :: s). split; [reflexivity | constructor; assumption].
      * exists s. split; [reflexivity | exact B].
    + exists w. split; [ | exact B]. rewrite E at 1. reflexivity.
Qed.

Lemma rstrip_last_nonspace (s : str) (d : char) :
  rstrip s <> [] -> isspace (last (rstrip s) d) = false.
Proof.
  induction s as [ | c s IH]; [intros H; contradiction | ].
  change (rstrip (c :: s))
    with (match rstrip s with
          | [] => if isspace c then [] else [c]
          | t => c :: t
          end).
  destruct (rstrip s) as [ | x t] eqn:R.
  - destruct (isspace c) eqn:C; [intros H; contradiction | ].
    intros _. exact C.
  - intros _. change (last (c :: x :: t) d) with (last (x :: t) d).
    apply IH. discriminate.
Qed.

Lemma rstrip_head (c : char) (s : str) :
  isspace c = false -> exists t, rstrip (c :: s) = c :: t.
Proof.
  intros C.
  change (rstrip (c :: s))
    with (match rstrip s with
          | [] => if isspace c then [] else [c]
          | t => c :: t
          end).
  destruct (rstrip s) as [ | x t]; [rewrite C | ]; eexists; reflexivity.
Qed.

(** [str.strip] returns a trimmed string, and keeps a single-spaced one
    single-spaced. *)
Lemma strip_is_trimmed (s : str) : trimmed (strip s) = true.
Proof.
  unfold strip.
  destruct (lstrip s) as [ | c t] eqn:L; [reflexivity | ].
  assert (C : isspace c = false) by (eapply lstrip_head; exact L).
  destruct (@rstrip_head c t C) as (t' & R).
  pose proof (@rstrip_last_nonspace (c :: t) c) as N.
  rewrite R in *. unfold trimmed.
  rewrite C, N by discriminate. reflexivity.
Qed.

Lemma strip_single_spaced (s : str) :
  single_spaced s = true -> single_spaced (strip s) = true.
Proof.
  intros H. unfold strip.
  destruct (lstrip_suffix s) as (w & E & _).
  rewrite E in H. apply single_spaced_suffix in H.
  destruct (rstrip_prefix (lstrip s)) as (w' & E' & _).
  rewrite E' in H. apply single_spaced_prefix in H. exact H.
Qed.

(** With an empty replacement [re.sub] only deletes. *)
Lemma sub_go_delete_length (ic : bool) (r : regex) (s : str) :
  forall skip, length (sub_go ic r [] s skip) <= length s.
Proof.
  induction s as [ | c s IH]; intros skip; destruct skip as [ | n]; simpl.
  - destruct (match_at ic r 0 []); simpl; lia.
  - lia.
  - destruct (match_at ic r 0 (c :: s)) as [m | ].
    + destruct (length (m_text m)); simpl.
      * specialize (IH 0). lia.
      * specialize (IH n). lia.
    + simpl. specialize (IH 0). lia.
  - specialize (IH n). lia.
Qed.

Lemma sub_go_delete_in (ic : bool) (r : regex) (s : str) (x : char) :
  forall skip, In x (sub_go ic r [] s skip) -> In x s.
Proof.
  induction s as [ | c s IH]; intros skip; destruct skip as [ | n]; simpl.
  - destruct (match_at ic r 0 []); simpl; trivial.
  - trivial.
  - destruct (match_at ic r 0 (c :: s)) as [m | ].
    + destruct (length (m_text m)); simpl.
      * intros [E | I]; [left; exact E | right; exact (IH 0 I)].
      * intros I. right. exact (IH n I).
    + simpl. intros [E | I]; [left; exact E | right; exact (IH 0 I)].
  - intros I. right. exact (IH n I).
Qed.

Lemma lstrip_in (s : str) (x : char) : In x (lstrip s) -> In x s.
Proof.
  destruct (lstrip_suffix s) as (w & E & _). intros I.
  rewrite E. apply in_or_app. right. exact I.
Qed.

Lemma re_sub_spaces_only_spaces (n : nat) :
  forall s,
    length s <= n ->
    length (re_sub false spaces_re (utf8 " ") s) <= length s
    /\ forall x,
         In x (re_sub false spaces_re (utf8 " ") s) -> In x s \/ x = space.
Proof.
  induction n as [ | n IH]; intros s L.
  - destruct s; [ | simpl in L; lia].
    split; [simpl; lia | intros x []].
  - destruct s as [ | c s]; [split; [simpl; lia | intros x []] | ].
    rewrite re_sub_spaces_cons. simpl in L.
    destruct (isspace c).
    + pose proof (lstrip_length s) as Ls.
      destruct (IH (lstrip s)) as [Q I]; [lia | ].
      change (utf8 " " ++ re_sub false spaces_re (utf8 " ") (lstrip s))
        with (space :: re_sub false spaces_re (utf8 " ") (lstrip s)).
      split; [simpl; lia | ].
      intros x [E | H]; [right; symmetry; exact E | ].
      destruct (I x H) as [J | J]; [left | right; exact J].
      right. apply lstrip_in. exact J.
    + destruct (IH s) as [Q I]; [lia | ].
      split; [simpl; lia | ].
      intros x [E | H]; [left; left; exact E | ].
      destruct (I x H) as [J | J]; [left; right; exact J | right; exact J].
Qed.

Lemma strip_shrinks (s : str) :
  length (strip s) <= length s /\ forall x, In x (strip s) -> In x s.
Proof.
  unfold strip.
  destruct (lstrip_suffix s) as (w & E & _).
  destruct (rstrip_prefix (lstrip s)) as (w' & E' & _).
  remember (lstrip s) as t eqn:T. clear T.
  remember (rstrip t) as u eqn:R. clear R. subst s t.
  split.
  - rewrite !length_app. lia.
  - intros x I. apply in_or_app. right. apply in_or_app. left. exact I.
Qed.
End Normal_form.

(** ** The matcher finds whatever the pattern denotes *)

Section Complete.
Context {U : Unicode}.
Variable ic : bool.

Lemma run_star_loop (r : regex) (s : str) (g : groups)
    (k : str -> groups -> option (str * groups)) :
  run ic (Star r) s g k = star_loop ic r k (length s) s g.
Proof. reflexivity. Qed.

(** A matcher succeeds only through its continuation. *)
Lemma run_fail (r : regex) :
  forall s g k,
    (forall s' g', k s' g' = None) -> run ic r s g k = None.
Proof.
  induction r as [ | p | | | | r1 IH1 r2 IH2 | r1 IH1 r2 IH2 | r IH | i r IH ];
    intros s g k K; simpl.
  - apply K.
  - destruct s as [ | c s']; [reflexivity | ].
    destruct (chr_match ic p c); [apply K | reflexivity].
  - destruct s as [ | c s']; [reflexivity | ].
    destruct (char_eqb c newline); [reflexivity | apply K].
  - destruct s as [ | c s']; [reflexivity | ].
    destruct (isdigit c); [apply K | reflexivity].
  - destruct s as [ | c s']; [reflexivity | ].
    destruct (isspace c); [apply K | reflexivity].
  - apply IH1. intros s' g'. apply IH2. exact K.
  - rewrite IH1 by exact K. apply IH2. exact K.
  - change (star_loop ic r k (length s) s g = None).
    generalize (length s). intros n. revert s g.
    induction n as [ | n IHn]; intros s g; simpl; [apply K | ].
    rewrite IH; [apply K | ].
    intros s' g'. destruct (Nat.ltb (length s') (length s));
      [apply IHn | reflexivity].
  - apply IH. intros s' g'. apply K.
Qed.

(** Continuations that agree give the same result. *)
Lemma run_ext (r : regex) :
  forall s g k1 k2,
    (forall s' g', k1 s' g' = k2 s' g') ->
    run ic r s g k1 = run ic r s g k2.
Proof.
  induction r as [ | p | | | | r1 IH1 r2 IH2 | r1 IH1 r2 IH2 | r IH | i r IH ];
    intros s g k1 k2 K; simpl.
  - apply K.
  - destruct s as [ | c s']; [reflexivity | ].
    destruct (chr_match ic p c); [apply K | reflexivity].
  - destruct s as [ | c s']; [reflexivity | ].
    destruct (char_eqb c newline); [reflexivity | apply K].
  - destruct s as [ | c s']; [reflexivity | ].
    destruct (isdigit c); [apply K | reflexivity].
  - destruct s as [ | c s']; [reflexivity | ].
    destruct (isspace c); [apply K | reflexivity].
  - apply IH1. intros s' g'. apply IH2. exact K.
  - rewrite (IH1 s g k1 k2 K), (IH2 s g k1 k2 K). reflexivity.
  - change (star_loop ic r k1 (length s) s g
            = star_loop ic r k2 (length s) s g).
    generalize (length s). intros n. revert s g.
    induction n as [ | n IHn]; intros s g; simpl; [apply K | ].
    rewrite K.
    match goal with
    | |- match run ic r s g ?f1 with _ => _ end
         = match run ic r s g ?f2 with _ => _ end =>
        rewrite (IH s g f1 f2); [reflexivity | ]
    end.
    intros s' g'. destruct (Nat.ltb (length s') (length s));
      [apply IHn | reflexivity].
  - apply IH. intros s' g'. apply K.
Qed.

(** The loop of [*] never runs out of iterations: any count that is at
    least the length of the subject gives the same result. *)
Lemma star_loop_fuel (r : regex)
    (k : str -> groups -> option (str * groups)) (m : nat) :
  forall n s g,
    length s <= m -> length s <= n ->
    star_loop ic r k m s g = star_loop ic r k n s g.
Proof.
  induction m as [ | m IH]; intros n s g Lm Ln.
  - destruct s; [ | simpl in Lm; lia].
    destruct n as [ | n]; [reflexivity | ]. simpl.
    rewrite run_fail; [reflexivity | ].
    intros s' g'. reflexivity.
  - destruct n as [ | n].
    + destruct s; [ | simpl in Ln; lia]. simpl.
      rewrite run_fail; [reflexivity | ].
      intros s' g'. reflexivity.
    + simpl.
      match goal with
      | |- match run ic r s g ?f1 with _ => _ end
           = match run ic r s g ?f2 with _ => _ end =>
          rewrite (@run_ext r s g f1 f2); [reflexivity | ]
      end.
      intros s' g'.
      destruct (Nat.ltb_spec (length s') (length s)); [ | reflexivity].
      apply IH; lia.
Qed.

Lemma star_loop_exit (r : regex)
    (k : str -> groups -> option (str * groups)) (n : nat) (s : str)
    (g : groups) :
  k s g <> None -> star_loop ic r k n s g <> None.
Proof.
  intros K. destruct n as [ | n]; simpl; [exact K | ].
  match goal with
  | |- match ?x with _ => _ end <> None => destruct x
  end; [discriminate | exact K].
Qed.

(** Completeness: where a word of the pattern stands at the head of the
    subject and the continuation accepts what follows it, the matcher
    succeeds. *)
Lemma run_complete (r : regex) (w : str) (g g' : groups) :
  matches ic r w g g' ->
  forall rest k g0,
    (forall gx, k rest gx <> None) ->
    run ic r (w ++ rest) g0 k <> None.
Proof.
  induction 1 as
    [ g | p c g C | c g C | c g C | c g C
    | r1 r2 w1 w2 g g1 g2 M1 IH1 M2 IH2
    | r1 r2 w g g' M IH | r1 r2 w g g' M IH
    | r g
    | r w1 w2 g g1 g2 M1 IH1 M2 IH2
    | i r w g g' M IH ];
    intros rest k g0 K; simpl.
  - apply K.
  - rewrite C. apply K.
  - rewrite C. apply K.
  - rewrite C. apply K.
  - rewrite C. apply K.
  - rewrite <- app_assoc. apply IH1. intros gx. apply IH2. exact K.
  - specialize (IH rest k g0 K).
    destruct (run ic r1 (w ++ rest) g0 k); [discriminate | contradiction].
  - destruct (run ic r1 (w ++ rest) g0 k); [discriminate | ].
    apply IH. exact K.
  - change (star_loop ic r k (length rest) rest g0 <> None).
    apply star_loop_exit. apply K.
  - destruct w1 as [ | c w1'].
    + apply (IH2 rest k g0 K).
    + change (star_loop ic r k (length (((c :: w1') ++ w2) ++ rest))
                (((c :: w1') ++ w2) ++ rest) g0 <> None).
      rewrite <- app_assoc.
      change (length ((c :: w1') ++ w2 ++ rest))
        with (S (length (w1' ++ w2 ++ rest))).
      cbn [star_loop].
      match goal with
      | |- match ?x with _ => _ end <> None =>
          assert (X : x <> None); [ | destruct x; [discriminate | contradiction]]
      end.
      apply IH1. intros gx.
      assert (L : Nat.ltb (length (w2 ++ rest))
                    (length ((c :: w1') ++ w2 ++ rest)) = true).
      { apply Nat.ltb_lt. simpl. rewrite !length_app. lia. }
      rewrite L.
      rewrite (@star_loop_fuel r k _ (length (w2 ++ rest)));
        [ | rewrite !length_app; lia | lia].
      apply (IH2 rest k gx K).
  - apply IH. intros gx. apply K.
Qed.
End Complete.

(** ** What [re.search] finds *)

Section Search.
Context {U : Unicode}.
Variable ic : bool.

Lemma match_at_complete (r : regex) (pos : nat) (w rest : str)
    (g g' : groups) :
  matches ic r w g g' -> match_at ic r pos (w ++ rest) <> None.
Proof.
  intros M. unfold match_at.
  match goal with
  | |- match ?x with _ => _ end <> None =>
      assert (x <> None) as C
        by (apply (run_complete M); intros gx; discriminate);
      destruct x as [[s' g0] | ]; [discriminate | contradiction]
  end.
Qed.

Lemma scan_complete (r : regex) (before w after : str) (g g' : groups) :
  matches ic r w g g' ->
  forall pos, scan ic r pos (before ++ w ++ after) <> None.
Proof.
  intros M. induction before as [ | c before IH]; intros pos.
  - pose proof (@match_at_complete r pos w after g g' M) as C.
    simpl. destruct after, w; simpl in *;
      destruct (match_at ic r pos _); try discriminate; contradiction.
  - simpl.
    destruct (match_at ic r pos (c :: before ++ w ++ after));
      [discriminate | apply IH].
Qed.

(** [re.search] returns a match exactly when what it looks for is there. *)
Lemma re_search_iff (p : pattern) (s : str) :
  re_search ic p s <> None <-> found ic p s.
Proof.
  unfold re_search, found. destruct (anchored p); split.
  - destruct (match_at ic (body p) 0 s) as [m | ] eqn:E;
      [ | intros H; contradiction].
    intros _. apply match_at_sound in E. destruct E as [E M].
    exists (m_text m), (m_rest m), (m_groups m). split; assumption.
  - intros (w & rest & g & -> & M).
    apply match_at_complete with (g := []) (g' := g). exact M.
  - destruct (scan ic (body p) 0 s) as [m | ] eqn:E;
      [ | intros H; contradiction].
    intros _. apply scan_sound in E. destruct E as (before & E & M).
    exists before, (m_text m), (m_rest m), (m_groups m).
    split; assumption.
  - intros (before & w & after & g & -> & M).
    apply scan_complete with (g := []) (g' := g). exact M.
Qed.

Lemma chr_match_refl (c : char) : chr_match ic c c = true.
Proof.
  unfold chr_match, char_eqb.
  destruct (ic && iscased c); [rewrite N.eqb_refl; reflexivity | ].
  apply N.eqb_refl.
Qed.

(** A run of characters is a word of its own literal pattern. *)
Lemma matches_lit (p : str) (g : groups) : matches ic (Lit p) p g g.
Proof.
  induction p as [ | c p IH]; [constructor | ].
  destruct p as [ | d p'].
  - constructor. apply chr_match_refl.
  - change (Lit (c :: d :: p')) with (Cat (Chr c) (Lit (d :: p'))).
    change (c :: d :: p') with ([c] ++ d :: p').
    econstructor; [constructor; apply chr_match_refl | exact IH].
Qed.


End Search.

(** ** Deleting the matches of a pattern *)

Section Deleting.
Context {U : Unicode}.
Variable ic : bool.
Variable r : regex.
Hypothesis words_nonempty : forall w g, matches ic r w [] g -> w <> [].

(** When the pattern has no empty word and occurs in the subject,
    [re.sub] with an empty replacement returns a shorter string. *)
Lemma re_sub_delete_shorter (s : str) :
  occurs ic r s -> length (re_sub ic r [] s) < length s.
Proof.
  unfold re_sub. induction s as [ | c s IH]; intros O.
  - destruct O as (before & w & after & g & E & M).
    destruct before; [ | discriminate]. destruct w; [ | discriminate].
    exfalso. exact (words_nonempty M eq_refl).
  - cbn [sub_go]. destruct (match_at ic r 0 (c :: s)) as [m | ] eqn:A.
    + apply match_at_sound in A. destruct A as [_ M].
      apply words_nonempty in M.
      destruct (m_text m) as [ | x t]; [contradiction | ].
      cbn [length app].
      pose proof (sub_go_delete_length ic r s (length t)). lia.
    + destruct O as (before & w & after & g & E & M).
      destruct before as [ | b before].
      * exfalso. simpl in E. rewrite E in A.
        exact (match_at_complete 0 after M A).
      * simpl in E. inversion E; subst.
        assert (O : occurs ic r (before ++ w ++ after))
          by (exists before, w, after, g; split; [reflexivity | exact M]).
        specialize (IH O). simpl. lia.
Qed.
End Deleting.

(** ** What the normalizer returns *)

Section Normalizer_output.
Context {U : Unicode} {F : PyFloat}.

Lemma cleaned_trimmed (text : str) : trimmed (cleaned text) = true.
Proof. unfold cleaned. apply strip_is_trimmed. Qed.

Lemma cleaned_single_spaced (text : str) :
  single_spaced (cleaned text) = true.
Proof.
  unfold cleaned. apply strip_single_spaced.
  eapply re_sub_spaces_single_spaced. apply Nat.le_refl.
Qed.

(** The three steps of the normalizer, each no longer than the one
    before. *)
Lemma cleaned_steps (text : str) :
  let a := re_sub false price_re [] text in
  let b := re_sub true label_re [] a in
  length (cleaned text) <= length b /\ length b <= length a
  /\ length a <= length text.
Proof.
  intros a b.
  set (c := re_sub false spaces_re (utf8 " ") b).
  assert (La : length a <= length text) by apply sub_go_delete_length.
  assert (Lb : length b <= length a) by apply sub_go_delete_length.
  assert (Hc : length c <= length b
               /\ forall x, In x c -> In x b \/ x = space)
    by (apply (@re_sub_spaces_only_spaces U (length b)); apply Nat.le_refl).
  destruct Hc as [Lc _].
  destruct (strip_shrinks c) as [Ls _].
  change (cleaned text) with (strip c).
  repeat split; [lia | exact Lb | exact La].
Qed.

Lemma price_word_nonempty (w : str) (g : groups) :
  matches false price_re w [] g -> w <> [].
Proof.
  intros M E. subst w.
  assert (O : occurs false price_re [])
    by (exists [], [], [], g; split; [reflexivity | exact M]).
  exact (price_has_point O).
Qed.

Lemma label_word_nonempty (w : str) (g : groups) :
  matches true label_re w [] g -> w <> [].
Proof.
  intros M E. subst w.
  assert (O : occurs true label_re [])
    by (exists [], [], [], g; split; [reflexivity | exact M]).
  destruct (label_has_tse O) as (c & [] & _).
Qed.

(** On a clean name the three substitutions and the strip change
    nothing. *)
Lemma cleaned_of_clean_name (s : str) : clean_name s -> cleaned s = s.
Proof.
  intros (P & L & S & T). unfold cleaned.
  rewrite (re_sub_absent [] P), (re_sub_absent [] L).
  rewrite re_sub_unchanged; [apply strip_trimmed; exact T | ].
  intros before w after g E M. unfold spaces_re in M.
  apply matches_plus_space in M. destruct M as (B & Ne & _).
  split; [ | exact Ne]. rewrite E in S.
  eapply single_spaced_run; [exact S | exact B | exact Ne].
Qed.

(** A text the normalizer leaves as it is, is a clean name. *)
Lemma clean_name_of_cleaned (s : str) : cleaned s = s -> clean_name s.
Proof.
  intros C.
  destruct (cleaned_steps s) as (Lc & Lb & La). rewrite C in Lc.
  assert (P : ~ occurs false price_re s).
  { intros O.
    pose proof (re_sub_delete_shorter price_word_nonempty O). lia. }
  assert (L : ~ occurs true label_re s).
  { intros O. rewrite (re_sub_absent [] P) in Lc, Lb.
    pose proof (re_sub_delete_shorter label_word_nonempty O). lia. }
  repeat split; [exact P | exact L | | ]; rewrite <- C.
  - apply cleaned_single_spaced.
  - apply cleaned_trimmed.
Qed.

(** X5.  Normal form of the normalizer's result. Whatever the text, what the
    normalizer computes is trimmed and single-spaced, so that stripping it
    again changes nothing. *)
Theorem cleaned_normal_form (text : str) :
  trimmed (cleaned text) = true
  /\ single_spaced (cleaned text) = true
  /\ strip (cleaned text) = cleaned text.
Proof.
  repeat split;
    [apply cleaned_trimmed | apply cleaned_single_spaced | ].
  apply strip_trimmed. apply cleaned_trimmed.
Qed.

(** The test of line 50 on a trimmed name of more than three characters. *)
Lemma guard_of_trimmed (product_name : str) :
  trimmed product_name = true -> 3 < length product_name ->
  negb (nonempty product_name)
  || Nat.ltb (length (strip product_name)) 3 = false.
Proof.
  intros T L. rewrite (strip_trimmed _ T).
  destruct product_name as [ | c t]; [simpl in L; lia | ].
  simpl negb. simpl orb. apply Nat.ltb_ge. cbn [length] in *. lia.
Qed.

Lemma clean_product_name_some (text product_name : str) :
  clean_product_name text = Some product_name ->
  product_name = cleaned text /\ 3 < length product_name.
Proof.
  unfold clean_product_name.
  destruct (Nat.ltb_spec 3 (length (cleaned text))) as [L | L];
    [ | discriminate].
  intros H. inversion H; subst. split; [reflexivity | exact L].
Qed.

(** X6.  The test of [extract_products] on the name, that it is empty or
    shorter than three characters once stripped, never holds of a name the
    normalizer returned: only the normalizer's own test on the length decides. *)
Theorem name_guard_never_fires (text product_name : str) :
  clean_product_name text = Some product_name ->
  negb (nonempty product_name)
  || Nat.ltb (length (strip product_name)) 3 = false.
Proof.
  intros H. apply clean_product_name_some in H. destruct H as [-> L].
  apply guard_of_trimmed; [apply cleaned_trimmed | exact L].
Qed.

(** X7.  The normalizer only deletes characters and turns white space into
    spaces: its result is no longer than the text and holds no character that
    the text does not hold, the space apart. So a text of three characters or
    fewer never gives a name. *)
Theorem normalizer_only_deletes (text : str) :
  length (cleaned text) <= length text
  /\ (forall x, In x (cleaned text) -> In x text \/ x = space)
  /\ (length text <= 3 -> clean_product_name text = None).
Proof.
  set (a := re_sub false price_re [] text).
  set (b := re_sub true label_re [] a).
  set (c := re_sub false spaces_re (utf8 " ") b).
  assert (La : length a <= length text) by apply sub_go_delete_length.
  assert (Lb : length b <= length a) by apply sub_go_delete_length.
  assert (Hc : length c <= length b
               /\ forall x, In x c -> In x b \/ x = space)
    by (apply (@re_sub_spaces_only_spaces U (length b)); apply Nat.le_refl).
  destruct Hc as [Lc Ic].
  destruct (strip_shrinks c) as [Ls Is].
  change (cleaned text) with (strip c).
  assert (L : length (strip c) <= length text) by lia.
  repeat split; [exact L | | ].
  - intros x I. apply Is in I. destruct (Ic x I) as [J | J]; [left | right; exact J].
    apply (@sub_go_delete_in U false price_re text x 0).
    apply (@sub_go_delete_in U true label_re a x 0). exact J.
  - intros T. unfold clean_product_name.
    change (cleaned text) with (strip c).
    destruct (Nat.ltb_spec 3 (length (strip c))); [lia | reflexivity].
Qed.

(** X8.  The names the normalizer returns unchanged are exactly the clean
    names of more than three characters: a text that holds a price with its
    currency, a price label, a double or foreign white space, or white space
    at an end, never comes back as it went in. *)
Theorem normalizer_fixed_points (s : str) :
  clean_product_name s = Some s <-> clean_name s /\ 3 < length s.
Proof.
  unfold clean_product_name. split.
  - destruct (Nat.ltb_spec 3 (length (cleaned s))) as [L | L];
      [ | discriminate].
    intros H. injection H as C.
    split; [apply clean_name_of_cleaned; exact C | ].
    rewrite C in L. exact L.
  - intros [N L]. rewrite (cleaned_of_clean_name N).
    destruct (Nat.ltb_spec 3 (length s)); [reflexivity | lia].
Qed.


End Normalizer_output.

(** ** The three outcomes of a container *)

Section Outcomes.
Context {U : Unicode} {F : PyFloat}.

Lemma priced (p : Prices.t) :
  is_some (Prices.old_price p) || is_some (Prices.new_price p) = true
  <-> Prices.old_price p <> None \/ Prices.new_price p <> None.
Proof.
  destruct (Prices.old_price p), (Prices.new_price p); simpl;
    split; try reflexivity; try discriminate;
    try (intros _; first [left; discriminate | right; discriminate]).
  intros [H | H]; contradiction.
Qed.

(** X9.  What becomes of a container. It gives a record exactly when it has a
    name element whose text the normalizer returns and the classifier keeps,
    the locator returns, and one of the two prices is there. It prints a line
    exactly when the name is accepted in the same way and the locator raises:
    a container whose name is dropped never prints, whatever its price spans
    hold. *)
Theorem container_outcomes (container : node) :
  (forall product_name prices,
     assemble container = Ok (Some (product_name, prices))
     <-> exists product_div,
           find container div (utf8 "actualProduct") = Some product_div
           /\ clean_product_name (get_text product_div) = Some product_name
           /\ is_non_product product_name = false
           /\ extract_prices_from_container container = Ok prices
           /\ (Prices.old_price prices <> None
               \/ Prices.new_price prices <> None))
  /\ (forall e,
        assemble container = Raise e
        <-> exists product_div product_name,
              find container div (utf8 "actualProduct") = Some product_div
              /\ clean_product_name (get_text product_div)
                 = Some product_name
              /\ is_non_product product_name = false
              /\ extract_prices_from_container container = Raise e).
Proof.
  unfold assemble.
  destruct (find container div (utf8 "actualProduct")) as [product_div | ].
  2: { split; [intros n p | intros e]; (split; [discriminate | ]).
       - intros (d & X & _). discriminate.
       - intros (d & n & X & _). discriminate. }
  destruct (clean_product_name (get_text product_div)) as [name | ] eqn:C.
  2: { split; [intros n p | intros e]; (split; [discriminate | ]).
       - intros (d & X & Y & _). inversion X; subst d.
         rewrite C in Y. discriminate.
       - intros (d & n & X & Y & _). inversion X; subst d.
         rewrite C in Y. discriminate. }
  pose proof (clean_product_name_some _ C) as [E L].
  rewrite (guard_of_trimmed name);
    [ | rewrite E; apply cleaned_trimmed | exact L].
  clear E L.
  destruct (is_non_product name) eqn:K.
  { split; [intros n p | intros e]; (split; [discriminate | ]).
    - intros (d & X & Y & Z & _). inversion X; subst d.
      rewrite C in Y. inversion Y; subst n. rewrite K in Z. discriminate.
    - intros (d & n & X & Y & Z & _). inversion X; subst d.
      rewrite C in Y. inversion Y; subst n. rewrite K in Z. discriminate. }
  destruct (extract_prices_from_container container) as [p | x]; simpl.
  - split; [intros n q | intros e].
    + destruct (is_some (Prices.old_price p)
                || is_some (Prices.new_price p)) eqn:B.
      * split.
        -- intros H. inversion H; subst n q. exists product_div.
           repeat split; try reflexivity; try assumption.
           apply priced. exact B.
        -- intros (d & X & Y & _ & P & _). inversion X; subst d.
           rewrite C in Y. inversion Y; subst n. inversion P; subst q.
           reflexivity.
      * split; [discriminate | ].
        intros (d & _ & _ & _ & P & Q). inversion P; subst q.
        apply priced in Q. rewrite B in Q. discriminate.
    + split.
      * destruct (is_some (Prices.old_price p)
                  || is_some (Prices.new_price p)); discriminate.
      * intros (d & n & _ & _ & _ & X). discriminate.
  - split; [intros n q | intros e].
    + split; [discriminate | ].
      intros (d & _ & _ & _ & X & _). discriminate.
    + split.
      * intros H. inversion H; subst.
        exists product_div, name. repeat split; assumption.
      * intros (d & n & _ & _ & _ & X). inversion X; subst. reflexivity.
Qed.
End Outcomes.

(** ** What the classifier rejects and what it keeps *)

Section Classifier.
Context {U : Unicode} {F : PyFloat}.

Lemma is_non_product_found (text : str) :
  is_non_product text = true
  <-> exists p, In p non_product_patterns /\ found true p (lower text).
Proof.
  unfold is_non_product. rewrite any_pattern_hit.
  split; intros (p & I & H); exists p; (split; [exact I | ]);
    apply re_search_iff; exact H.
Qed.

Lemma header_found (h rest : str) :
  found true (at_start (Lit h)) (h ++ rest).
Proof.
  exists h, rest, []. split; [reflexivity | apply matches_lit].
Qed.

Lemma found_may_be_header (p : pattern) (t : str) :
  In p non_product_patterns -> found true p t -> may_be_header t = true.
Proof.
  intros I H.
  assert (A : (exists c rest,
                  t = c :: rest
                  /\ (isdigit c = true
                      \/ exists h, In h header_initials
                                   /\ chr_match true h c = true))
              \/ exists c, In c t /\ chr_match true (chr "w") c = true).
  { simpl in I.
    repeat (destruct I as [<- | I]); [ .. | contradiction];
      unfold found in H; cbn [anchored at_start unanchored body] in H.
    all: try (destruct H as (w & rest & g & -> & M); left;
              vm_compute in M; inv_matches; cbn [app];
              eexists; eexists; (split; [reflexivity | ]);
              first [ left; assumption
                    | right;
                      match goal with
                      | X : chr_match true ?h ?c = true
                        |- exists _, _ /\ chr_match true _ ?c = true =>
                          exists h; split; [vm_compute; tauto | exact X]
                      end ]).
    destruct H as (before & w & after & g & -> & M). right.
    vm_compute in M. inv_matches.
    match goal with
    | X : chr_match true 119 ?c = true |- _ => exists c; split; [ | exact X]
    end.
    rewrite !in_app_iff. simpl. tauto. }
  unfold may_be_header. apply orb_true_iff.
  destruct A as [(c & rest & -> & [D | (h & J & X)]) | (c & J & X)].
  - left. rewrite D. reflexivity.
  - left. apply orb_true_iff. right. apply existsb_exists.
    exists h. split; assumption.
  - right. apply existsb_exists. exists c. split; assumption.
Qed.

(** X10.  The classifier rejects a text exactly when one of its eleven
    patterns is found in the lower-cased text: at its start for the ten
    patterns that begin with [^], anywhere for the domain. *)
Theorem classifier_iff (text : str) :
  is_non_product text = true
  <-> exists p, In p non_product_patterns /\ found true p (lower text).
Proof.
  unfold is_non_product. rewrite any_pattern_hit. split.
  - intros (p & I & H). exists p. split; [exact I | ].
    apply re_search_iff. exact H.
  - intros (p & I & H). exists p. split; [exact I | ].
    apply re_search_iff. exact H.
Qed.

(** X11.  A text whose lower-case form starts with one of the five headers
    made of letters only, or holds the domain anywhere, is rejected, whatever
    follows. *)
Theorem literal_headers_rejected (text : str) :
  (exists h rest, In h literal_headers /\ lower text = h ++ rest)
  \/ (exists before after,
        lower text = before ++ utf8 "www.billa.bg" ++ after) ->
  is_non_product text = true.
Proof.
  intros [(h & rest & I & E) | (before & after & E)];
    apply is_non_product_found; rewrite E.
  - exists (at_start (Lit h)). split; [ | apply header_found].
    simpl in I.
    repeat (destruct I as [<- | I]; [simpl; tauto | ]). contradiction.
  - exists (unanchored (Lit (utf8 "www.billa.bg"))).
    split; [simpl; tauto | ].
    exists before, (utf8 "www.billa.bg"), after, [].
    split; [reflexivity | apply matches_lit].
Qed.

(** X12.  The classifier keeps every text whose lower-case form neither starts
    with a digit or one of the seven first characters of the headers, nor
    holds a [w]. *)
Theorem classifier_keeps (text : str) :
  may_be_header (lower text) = false -> is_non_product text = false.
Proof.
  intros H. destruct (is_non_product text) eqn:E; [ | reflexivity].
  apply is_non_product_found in E. destruct E as (p & I & X).
  rewrite (found_may_be_header (lower text) I X) in H. discriminate.
Qed.
End Classifier.

(** ** When a discount is recorded *)

Section Discount_presence.
Context {U : Unicode} {F : PyFloat}.




End Discount_presence.

(** ** The products shown *)

Section Shown.
Context {F : PyFloat}.
Variable truthy : pyfloat -> bool.

Lemma firstn_filter_all (A : Type) (f : A -> bool) (n : nat) (l : list A) :
  Forall (fun x => f x = true) (firstn n (filter f l)).
Proof.
  apply Forall_forall. intros x I.
  assert (J : In x (filter f l)).
  { rewrite <- (firstn_skipn n (filter f l)). apply in_or_app.
    left. exact I. }
  apply filter_In in J. destruct J as [_ J]. exact J.
Qed.

Lemma firstn_in (A : Type) (n : nat) (l : list A) (x : A) :
  In x (firstn n l) -> In x l.
Proof.
  intros I. rewrite <- (firstn_skipn n l). apply in_or_app. left. exact I.
Qed.

Lemma filter_nil_none (A : Type) (f : A -> bool) (l : list A) :
  filter f l = [] -> Forall (fun x => f x = false) l.
Proof.
  induction l as [ | a l IH]; simpl; [constructor | ].
  destruct (f a) eqn:E; [discriminate | ].
  intros H. constructor; [exact E | exact (IH H)].
Qed.

(** X14.  [main] shows at most five products, all of them products of the
    list, and shows one as soon as the list is not empty. Either every product
    shown has both prices, or no product of the list has and the first five
    are shown. *)
Theorem samples_shown (products : list Product.t) :
  length (samples truthy products) <= 5
  /\ (forall p, In p (samples truthy products) -> In p products)
  /\ (samples truthy products = [] <-> products = [])
  /\ (Forall (fun p => both_prices truthy p = true)
        (samples truthy products)
      \/ (Forall (fun p => both_prices truthy p = false) products
          /\ samples truthy products = firstn 5 products)).
Proof.
  unfold samples.
  pose proof (firstn_filter_all (both_prices truthy) 5 products) as A.
  pose proof (@firstn_in _ 5 (filter (both_prices truthy) products)) as I.
  pose proof (firstn_le_length 5 (filter (both_prices truthy) products))
    as L.
  destruct (firstn 5 (filter (both_prices truthy) products))
    as [ | s ss] eqn:E.
  - assert (N : filter (both_prices truthy) products = []).
    { destruct (filter (both_prices truthy) products); [reflexivity | ].
      simpl in E. discriminate. }
    repeat split.
    + apply firstn_le_length.
    + intros p. apply firstn_in.
    + destruct products; [reflexivity | simpl; discriminate].
    + intros ->. reflexivity.
    + right. split; [apply filter_nil_none; exact N | reflexivity].
  - repeat split.
    + exact L.
    + intros p J. apply I in J. apply filter_In in J. tauto.
    + discriminate.
    + intros ->. simpl in E. discriminate.
    + left. exact A.
Qed.
End Shown.

(** ** From the prices of a container to its record *)

Section Priced_records.
Context {U : Unicode} {F : PyFloat}.

(** A container whose name is accepted and whose prices are read gives its
    record. *)
Lemma assemble_accepts (container product_div : node) (product_name : str)
    (prices : Prices.t) :
  find container div (utf8 "actualProduct") = Some product_div ->
  clean_product_name (get_text product_div) = Some product_name ->
  is_non_product product_name = false ->
  extract_prices_from_container container = Ok prices ->
  Prices.old_price prices <> None \/ Prices.new_price prices <> None ->
  assemble container = Ok (Some (product_name, prices)).
Proof.
  intros D C K X P. unfold assemble. rewrite D, C.
  pose proof (clean_product_name_some _ C) as [E L].
  rewrite (guard_of_trimmed product_name);
    [ | rewrite E; apply cleaned_trimmed | exact L].
  rewrite K, X. simpl. apply priced in P. rewrite P. reflexivity.
Qed.

Lemma assemble_name (container : node) (product_name : str)
    (prices : Prices.t) :
  assemble container = Ok (Some (product_name, prices)) ->
  exists product_div,
    find container div (utf8 "actualProduct") = Some product_div
    /\ clean_product_name (get_text product_div) = Some product_name.
Proof.
  unfold assemble.
  destruct (find container div (utf8 "actualProduct")) as [product_div | ];
    [ | discriminate].
  destruct (clean_product_name (get_text product_div)) as [name | ] eqn:C;
    [ | discriminate].
  match goal with
  | |- (if ?b then _ else _) = _ -> _ => destruct b; [discriminate | ]
  end.
  destruct (is_non_product name); [discriminate | ].
  destruct (extract_prices_from_container container) as [p | e]; simpl;
    [ | discriminate].
  destruct (is_some (Prices.old_price p) || is_some (Prices.new_price p));
    [ | discriminate].
  intros H. inversion H; subst. exists product_div.
  split; [reflexivity | exact C].
Qed.

(** The scan of one kept container appends its record. *)
Lemma scan_one_kept (container : node) (product_name : str)
    (prices : Prices.t) (products : list Product.t) (w : world) :
  assemble container = Ok (Some (product_name, prices)) ->
  fst (scan_containers [container] products w)
  = products ++ [record product_name prices (clock w (ticks w))].
Proof. intros A. simpl. rewrite A. reflexivity. Qed.

(** The records of a scan go with the kept containers, one for one and in
    order. *)
Lemma stamped_kept_containers (P : Product.t -> node -> Prop) :
  (forall container product_name prices at_,
     assemble container = Ok (Some (product_name, prices)) ->
     P (record product_name prices at_) container) ->
  forall cs clock tick,
    Forall2 P (stamped (kept cs) clock tick) (kept_containers cs).
Proof.
  intros H. induction cs as [ | c cs IH]; intros clock tick; simpl;
    [constructor | ].
  unfold kept, kept_containers in *. simpl.
  destruct (assemble c) as [[[product_name prices] | ] | e] eqn:A; simpl;
    try apply IH.
  constructor; [apply H; exact A | apply IH].
Qed.


(** C2, as the code has it.  When the badge holds no more digits than [int]
    converts, the section of width 21% holds exactly one price span, a
    number, and the section of width 15% holds at least one price span whose
    first text is a number, [old_price] is the former and [new_price] the
    latter, in the prices of the locator and, when the name of the container
    is accepted, in the record the scan appends for it. *)
Theorem fallback_rule
    (container old_price_div first new_price_div first' : node)
    (others' : list node) (a b : pyfloat) :
  badge_too_long container = false ->
  find_style container div width21 = Some old_price_div ->
  find_all old_price_div span (utf8 "price") = [first] ->
  float_of_str (get_text first) = Some a ->
  find_style container div width15 = Some new_price_div ->
  find_all new_price_div span (utf8 "price") = first' :: others' ->
  float_of_str (get_text first') = Some b ->
  exists prices,
    extract_prices_from_container container = Ok prices
    /\ Prices.old_price prices = Some a
    /\ Prices.new_price prices = Some b
    /\ (forall product_div product_name products w,
          find container div (utf8 "actualProduct") = Some product_div ->
          clean_product_name (get_text product_div) = Some product_name ->
          is_non_product product_name = false ->
          exists r,
            fst (scan_containers [container] products w) = products ++ [r]
            /\ Product.name r = product_name
            /\ Product.old_price r = Some a
            /\ Product.new_price r = Some b).
Proof.
  intros L W S A W' S' B.
  set (init := {| Prices.old_price := None; Prices.new_price := None;
                  Prices.discount := None |}).
  destruct (discount_section_prices container init L) as (p & D & _ & N).
  assert (E : extract_prices_from_container container
              = Ok (set_new_price (set_old_price p a) b)).
  { unfold extract_prices_from_container. fold init. rewrite D. simpl.
    unfold old_price_section. rewrite W, S, (float_ok _ A). simpl.
    unfold new_price_section. simpl. rewrite N. simpl.
    rewrite W', S', (float_ok _ B). reflexivity. }
  exists (set_new_price (set_old_price p a) b).
  split; [exact E | ]. split; [reflexivity | ]. split; [reflexivity | ].
  intros product_div product_name products w Pd C K.
  eexists. split.
  - apply scan_one_kept. apply (assemble_accepts _ Pd C K E).
    left. discriminate.
  - repeat split.
Qed.

(** C8, as the code has it.  The records go with the containers the
    assembler keeps, one for one and in document order, and the discount of
    a record, when present, is read from the badge of its own container: it
    is the number [int] reads from the digits that the first [-NN%] of the
    badge captures.  These digits are at least one and no more than [int]
    converts, so the number is not negative and, digits having values below
    ten, is below the power of ten of that limit; nothing else bounds it. *)
Theorem discount_is_badge_number (soup : node) (w : world) :
  Forall2
    (fun r container =>
       (exists product_div,
          find container div (utf8 "actualProduct") = Some product_div
          /\ clean_product_name (get_text product_div)
             = Some (Product.name r))
       /\ forall d, Product.discount_percent r = Some d ->
            exists discount_div m ds,
              find container div (utf8 "discount") = Some discount_div
              /\ re_search false discount_re (get_text discount_div)
                 = Some m
              /\ group 1 (m_groups m) = Some ds
              /\ digits ds /\ ds <> []
              /\ (N.of_nat (length ds) <= int_max_str_digits)%N
              /\ int_of_str ds = Ok d
              /\ (0 <= d)%Z
              /\ (decimal_values ->
                  (d < 10 ^ Z.of_N int_max_str_digits)%Z))
    (fst (extract_products soup w))
    (kept_containers (find_all soup div (utf8 "product"))).
Proof.
  unfold extract_products. rewrite scan_containers_spec. simpl.
  apply stamped_kept_containers.
  intros container product_name prices at_ A. split.
  - apply assemble_name in A. exact A.
  - intros d D. simpl in D.
    apply assemble_kept in A. destruct A as (_ & X & _).
    exact (extract_prices_discount _ X D).
Qed.
End Priced_records.

(** ** The properties above on the sample documents *)

Section More_samples.
#[local] Existing Instance sample_unicode.
#[local] Existing Instance decimal_float.
Local Open Scope string_scope.


Lemma fallback_rule_witness :
  exists prices r,
    extract_prices_from_container cheese = Ok prices
    /\ Prices.old_price prices = Some (Finite false 750 (-2))
    /\ Prices.new_price prices = Some (Finite false 620 (-2))
    /\ fst (extract_products (page [cheese]) monday) = [r]
    /\ Product.name r = utf8 "Кашкавал Витоша 400г"
    /\ Product.old_price r = Some (Finite false 750 (-2))
    /\ Product.new_price r = Some (Finite false 620 (-2)).
Proof.
  destruct (@fallback_rule sample_unicode decimal_float cheese
              (column "width:21%;float:left" ["7.50"]) (price_span "7.50")
              (column "width:15%;float:left" ["6.20"]) (price_span "6.20") []
              (Finite false 750 (-2)) (Finite false 620 (-2)))
    as (prices & E & O & N & R); try (vm_compute; reflexivity).
  destruct (R (Tag div [utf8 "actualProduct"] None
                 [text "Кашкавал Витоша 400г"])
              (utf8 "Кашкавал Витоша 400г") [] monday)
    as (r & S & Rn & Ro & Rp); try (vm_compute; reflexivity).
  exists prices, r. repeat split; assumption.
Defined.


(** C2 as stated fails in the same way. *)
Lemma long_badge_hides_fallback :
  ~ (forall container old_price_div first new_price_div first' others' a b,
        find_style container div width21 = Some old_price_div ->
        find_all old_price_div span (utf8 "price") = [first] ->
        float_of_str (get_text first) = Some a ->
        find_style container div width15 = Some new_price_div ->
        find_all new_price_div span (utf8 "price") = first' :: others' ->
        float_of_str (get_text first') = Some b ->
        exists prices,
          extract_prices_from_container container = Ok prices
          /\ Prices.old_price prices = Some a
          /\ Prices.new_price prices = Some b)
  /\ fst (extract_products (page [cheese_long_badge]) monday) = []
  /\ stdout (snd (extract_products (page [cheese_long_badge]) monday))
     = [Error_processing_product (Exceeds_limit 4301)].
Proof.
  assert (X : extract_prices_from_container cheese_long_badge
              = Raise (Exceeds_limit 4301)) by (vm_compute; reflexivity).
  split; [ | split; vm_compute; reflexivity].
  intros H.
  destruct (H cheese_long_badge
              (column "width:21%;float:left" ["7.50"]) (price_span "7.50")
              (column "width:15%;float:left" ["6.20"]) (price_span "6.20") []
              (Finite false 750 (-2)) (Finite false 620 (-2)))
    as (prices & E & _); try (vm_compute; reflexivity).
  rewrite X in E. discriminate.
Qed.



Lemma discount_is_badge_number_witness :
  Forall2
    (fun r container =>
       (exists product_div,
          find container div (utf8 "actualProduct") = Some product_div
          /\ clean_product_name (get_text product_div)
             = Some (Product.name r))
       /\ forall d, Product.discount_percent r = Some d ->
            exists discount_div m ds,
              find container div (utf8 "discount") = Some discount_div
              /\ re_search false discount_re (get_text discount_div)
                 = Some m
              /\ group 1 (m_groups m) = Some ds
              /\ digits ds /\ ds <> []
              /\ (N.of_nat (length ds) <= int_max_str_digits)%N
              /\ int_of_str ds = Ok d
              /\ (0 <= d)%Z
              /\ (decimal_values ->
                  (d < 10 ^ Z.of_N int_max_str_digits)%Z))
    (fst (extract_products (page [lemonade]) monday))
    (kept_containers (find_all (page [lemonade]) div (utf8 "product"))).
Proof.
  exact (@discount_is_badge_number sample_unicode decimal_float
           (page [lemonade]) monday).
Defined.

Lemma locator_returns_witness :
  exists prices,
    extract_prices_from_container cheese = Ok prices
    /\ Prices.old_price prices
       = match wide_spans cheese with
         | s :: _ => number_of s
         | [] => None
         end
    /\ Prices.new_price prices
       = match wide_spans cheese with
         | _ :: s :: _ => number_of s
         | _ =>
             match narrow_spans cheese with
             | s :: _ => number_of s
             | [] => None
             end
         end.
Proof.
  apply (@locator_returns sample_unicode decimal_float cheese).
  - vm_compute. reflexivity.
  - vm_compute. repeat constructor; discriminate.
Defined.

Lemma name_guard_never_fires_witness :
  negb (nonempty milk) || Nat.ltb (length (strip milk)) 3 = false.
Proof.
  apply (@name_guard_never_fires sample_unicode milk milk).
  vm_compute. reflexivity.
Defined.

Lemma literal_headers_rejected_witness :
  is_non_product (utf8 "Седмична брошура 12") = true.
Proof.
  apply (@literal_headers_rejected sample_unicode).
  left. exists (utf8 "седмична брошура"), (utf8 " 12").
  split; [vm_compute; tauto | vm_compute; reflexivity].
Defined.

Lemma classifier_keeps_witness :
  is_non_product (utf8 "Шунка Пиле 300г") = false.
Proof.
  apply (@classifier_keeps sample_unicode).
  vm_compute. reflexivity.
Defined.

End More_samples.

